(** * UPI transaction analysis: the feature pipeline and the forecast
      evaluation of [upi_analysis.py]

    The script is a pandas pipeline over a monthly series.  Frames are
    lists of rows with the fixed schema the script assigns; a float64
    cell is a primitive binary64 float, so that division by zero, NaN and
    rounding behave as they do in numpy; the forecasting library is an
    interface whose numerical core is left abstract, and so is what the
    date parser makes of a text that is not a well-formed date. *)

From Stdlib Require Import ZArith List Bool Lia Floats Uint63 Sorting Permutation.
From Stdlib Require Import Reals Lra.
Import ListNotations.

Set Implicit Arguments.

(** ** Outcomes of a Python call: a value, or an uncaught exception *)

Inductive exn : Type :=
| ValueError          (* pandas date parsing, Prophet and sklearn input checks *)
| OutOfBoundsDatetime (* a Timestamp outside pandas' nanosecond range *)
| OtherError          (* an exception of any other class *).

Inductive outcome (A : Type) : Type :=
| Return (a : A)
| Raise (e : exn).
Arguments Raise {A} e.

Definition bind {A B} (m : outcome A) (k : A -> outcome B) : outcome B :=
  match m with
  | Return a => k a
  | Raise e => Raise e
  end.

Notation "x <- m ;; k" := (bind m (fun x => k))
  (at level 61, m at next level, right associativity).

(** ** numpy: float64 cells *)

Module Np.

Open Scope float_scope.

Definition isnan (x : float) : bool := negb (x =? x).

Definition isinf (x : float) : bool := (abs x =? infinity).

Definition isfinite (x : float) : bool := negb (isnan x) && negb (isinf x).

Definition two52 : float := 0x1p52.

(** C's [rint] in the default rounding mode (to nearest, ties to even).
    Every double of magnitude 2^52 or more is an integer; below that,
    adding and removing 2^52 rounds to an integer. *)
Definition rint (x : float) : float :=
  if abs x <? two52 then
    if x =? 0 then x
    else if x <? 0 then - ((- x + two52) - two52)
    else (x + two52) - two52
  else x.

(** [ndarray.round(decimals)] for [decimals = 2]: numpy scales by
    [10**decimals], applies [rint], and divides back. *)
Definition round2 (x : float) : float := rint (x * 100) / 100.

End Np.

(** ** pandas Timestamps at day resolution *)

Record Timestamp : Type := mkTimestamp { year : Z; month : Z; day : Z }.

Module Ts.

Open Scope Z_scope.

Definition eqb (a b : Timestamp) : bool :=
  (year a =? year b) && (month a =? month b) && (day a =? day b).

Definition ltb (a b : Timestamp) : bool :=
  (year a <? year b)
  || ((year a =? year b)
      && ((month a <? month b)
          || ((month a =? month b) && (day a <? day b)))).

Definition leb (a b : Timestamp) : bool := ltb a b || eqb a b.

(** Months since year 0, and the first day of the month with that number. *)
Definition month_index (d : Timestamp) : Z := year d * 12 + (month d - 1).

Definition month_start (k : Z) : Timestamp :=
  mkTimestamp (k / 12) (k mod 12 + 1) 1.

Definition is_month_start (d : Timestamp) : bool :=
  (day d =? 1) && (1 <=? month d) && (month d <=? 12).

(** [Timestamp.min] is 1677-09-21 and [Timestamp.max] is 2262-04-11, so the
    first-of-month dates a Timestamp can hold run from 1677-10-01 to
    2262-04-01. *)
Definition min_month : Z := 1677 * 12 + 9.
Definition max_month : Z := 2262 * 12 + 3.

Definition in_bounds (k : Z) : bool := (min_month <=? k) && (k <=? max_month).

End Ts.

(** ** What the script prints, and calls that print *)

Inductive line : Type :=
| FileNotFoundMessage   (* "Error: The file '...' was not found. ..." *)
| LoadedBanner          (* "--- Data Loaded and Cleaned Successfully ---" *)
| FeaturesBanner        (* "--- Feature Engineering Complete ---" *)
| ForecastBanner        (* "--- Starting Time-Series Forecasting & Evaluation ---" *)
| EvaluationBanner      (* "--- Model Performance Evaluation (on last 12 months) ---" *)
| MaeLine (mae : float) (* "Mean Absolute Error (MAE): ..."; the value formatted *)
| RmseLine (rmse : float).

(** A call of the script: the lines it printed, then its result or the
    exception that ended it. *)
Record io (A : Type) : Type := mkIo { stdout : list line; result : outcome A }.

Definition ret {A} (a : A) : io A := mkIo [] (Return a).

Definition print (l : line) : io unit := mkIo [l] (Return tt).

Definition lift {A} (m : outcome A) : io A := mkIo [] m.

Definition io_bind {A B} (m : io A) (k : A -> io B) : io B :=
  match result m with
  | Return a => mkIo (stdout m ++ stdout (k a)) (result (k a))
  | Raise e => mkIo (stdout m) (Raise e)
  end.

Notation "x <~ m ;; k" := (io_bind m (fun x => k))
  (at level 61, m at next level, right associativity).
Notation "m ;;; k" := (io_bind m (fun _ => k))
  (at level 61, right associativity).

(** ** pandas: the pieces of the API the script calls *)

Module Pd.

(** A cell of the volume or value column as [read_csv] delivers it. *)
Inductive cell : Type :=
| Numeric (x : float)  (* text that spells a number, [inf] included *)
| NonNumeric           (* any other text *)
| Blank                (* an empty field, read as NaN *).

(** [pd.to_numeric(..., errors='coerce')] on one cell. *)
Definition to_numeric (c : cell) : float :=
  match c with
  | Numeric x => x
  | NonNumeric => nan
  | Blank => nan
  end.

Definition isna (x : float) : bool := Np.isnan x.
Definition notna (x : float) : bool := negb (isna x).

(** The text line 36 hands to [pd.to_datetime] is
    [str(Year) + '-' + str(Month) + '-01'], given here by its two integers.
    It is well formed when it spells a date that pandas reads with the
    format %Y-%m-%d and that fits the nanosecond range of a Timestamp: a
    four-digit year, a month of 1..12, from 1677-10 to 2262-04. *)
Definition well_formed (y m : Z) : bool :=
  ((1000 <=? y) && (y <=? 9999) && (1 <=? m) && (m <=? 12))%Z
  && Ts.in_bounds (y * 12 + (m - 1)).

(** What the library makes of a column that holds some other text (a
    negative or two-digit number, a month of 13, a year past 2262) is left
    abstract: the format it guesses from the first row, the dateutil
    fallback and the resolution it stores differ from text to text and from
    release to release.  Given the whole column the parser raises or reads
    a date in every row, kept here at day resolution. *)
Class Parser : Type := {
  parse_irregular : list (Z * Z) -> outcome (nat -> Timestamp)
}.

(** [pd.to_datetime(column)] with the default [errors='raise']. *)
Definition to_datetime {parser : Parser} (col : list (Z * Z))
  : outcome (list Timestamp) :=
  if forallb (fun ym => well_formed (fst ym) (snd ym)) col then
    Return (map (fun ym => mkTimestamp (fst ym) (snd ym) 1) col)
  else
    reading <- parse_irregular col ;;
    Return (map reading (seq 0 (length col))).

(** Positional slices [s.iloc[:-k]] and [s.iloc[-k:]]: a negative bound
    counts from the end and is clamped at the start of the sequence. *)
Definition iloc_upto_neg {A} (k : nat) (s : list A) : list A :=
  firstn (length s - k) s.

Definition iloc_from_neg {A} (k : nat) (s : list A) : list A :=
  skipn (length s - k) s.

(** [Series.shift(k)], [k >= 0]: values move down [k] places, NaN fills the
    top, the length stays. *)
Definition shift (k : nat) (s : list float) : list float :=
  firstn (length s) (repeat nan k ++ s).

(** [Series.ffill()]: a missing value takes the last valid one before it. *)
Fixpoint ffill_from (last : float) (s : list float) : list float :=
  match s with
  | [] => []
  | x :: rest =>
      if isna x then last :: ffill_from last rest
      else x :: ffill_from x rest
  end.

Definition ffill (s : list float) : list float := ffill_from nan s.

(** Element-wise arithmetic of two Series over the same index. *)
Fixpoint zip_with {A B C} (f : A -> B -> C) (s : list A) (t : list B) : list C :=
  match s, t with
  | x :: s', y :: t' => f x y :: zip_with f s' t'
  | _, _ => []
  end.

Definition div (s t : list float) : list float := zip_with PrimFloat.div s t.

(** [Series.pct_change(k)] with the default [fill_method='pad'] of
    pandas 2: [data / data.shift(k) - 1] on the forward-filled data.  The
    fill acts on a column that holds NaN only, which no frame of the loader
    does. *)
Definition pct_change (k : nat) (s : list float) : list float :=
  let data := ffill s in
  map (fun q => (q - 1)%float) (div data (shift k data)).

(** [round(series, 2)]. *)
Definition round2 (s : list float) : list float := map Np.round2 s.

End Pd.

(** ** Frames of the script *)

(** A raw record: one line of the CSV under the column names the script
    assigns by position. *)
Record RawRecord : Type := mkRaw {
  raw_Year : Z;
  raw_Month : Z;
  raw_TransactionVolume_Cr : Pd.cell;
  raw_TransactionValue_RsCr : Pd.cell
}.

(** What [pd.read_csv(filepath)] does: the file is missing, the read fails
    in some other way (no permission, an empty file, a parser error), or a
    table is read.  A table is one of four columns whose first two read as
    integers, or it has another number of columns; tables with a blank or
    a text in the first two columns are outside this development. *)
Inductive read_csv_result : Type :=
| FileNotFoundError
| ReadError (e : exn)
| OtherWidth
| Table (rows : list RawRecord).

(** A row of the cleaned frame: the [Date] index and the four columns. *)
Record Entry : Type := mkEntry {
  Date : Timestamp;
  Year : Z;
  Month : Z;
  TransactionVolume_Cr : float;
  TransactionValue_RsCr : float
}.

(** A row of the featured frame: the same, and the two derived columns. *)
Record Featured : Type := mkFeatured {
  f_Date : Timestamp;
  f_Year : Z;
  f_Month : Z;
  f_TransactionVolume_Cr : float;
  f_TransactionValue_RsCr : float;
  AvgTransactionValue_Rs : float;
  YoY_Volume_Growth_pct : float
}.

(** ** Section 2 of the script: loading and cleaning *)

(** Lines 36 to 39 for one row, the date already parsed. *)
Definition coerce_row (d : Timestamp) (r : RawRecord) : Entry :=
  mkEntry d (raw_Year r) (raw_Month r)
          (Pd.to_numeric (raw_TransactionVolume_Cr r))
          (Pd.to_numeric (raw_TransactionValue_RsCr r)).

(** [df.dropna()] keeps the rows with no missing column; the integer
    columns [Year] and [Month] hold no missing value. *)
Definition complete (e : Entry) : bool :=
  Pd.notna (TransactionVolume_Cr e) && Pd.notna (TransactionValue_RsCr e).

Definition dropna (df : list Entry) : list Entry := filter complete df.

Definition load_and_clean_data {parser : Pd.Parser} (csv : read_csv_result)
  : io (option (list Entry)) :=
  match csv with
  | FileNotFoundError =>
      print FileNotFoundMessage ;;;
      ret None
  | ReadError e =>
      (* only FileNotFoundError is caught *)
      lift (Raise e)
  | OtherWidth =>
      (* line 35: four names for another number of columns *)
      lift (Raise ValueError)
  | Table rows =>
      dates <~ lift (Pd.to_datetime (map (fun r => (raw_Year r, raw_Month r)) rows)) ;;
      let df := Pd.zip_with coerce_row dates rows in
      let df := dropna df in
      print LoadedBanner ;;;
      ret (Some df)
  end.

(** ** Section 3 of the script: feature engineering *)

Definition AvgTransactionValue_column (df : list Entry) : list float :=
  Pd.round2 (Pd.div (map TransactionValue_RsCr df) (map TransactionVolume_Cr df)).

Definition YoY_column (df : list Entry) : list float :=
  Pd.round2 (map (fun g => (g * 100)%float)
                 (Pd.pct_change 12 (map TransactionVolume_Cr df))).

(** [df[name] = column]: a new column, row by row. *)
Fixpoint assign2 (df : list Entry) (avg yoy : list float) : list Featured :=
  match df, avg, yoy with
  | e :: df', a :: avg', g :: yoy' =>
      mkFeatured (Date e) (Year e) (Month e)
                 (TransactionVolume_Cr e) (TransactionValue_RsCr e) a g
      :: assign2 df' avg' yoy'
  | _, _, _ => []
  end.

Definition create_features (df : list Entry) : io (list Featured) :=
  let avg := AvgTransactionValue_column df in
  let yoy := YoY_column df in
  print FeaturesBanner ;;;
  ret (assign2 df avg yoy).

(** The original columns of a featured row. *)
Definition original (f : Featured) : Entry :=
  mkEntry (f_Date f) (f_Year f) (f_Month f)
          (f_TransactionVolume_Cr f) (f_TransactionValue_RsCr f).

(** ** Ordering rows by date *)

Module Ord.

(** [sort_values('ds')]: a stable sort on the date of each row. *)
Fixpoint insert {A} (key : A -> Timestamp) (x : A) (l : list A) : list A :=
  match l with
  | [] => [x]
  | y :: l' =>
      if Ts.leb (key x) (key y) then x :: y :: l'
      else y :: insert key x l'
  end.

Fixpoint sort_values {A} (key : A -> Timestamp) (l : list A) : list A :=
  match l with
  | [] => []
  | x :: l' => insert key x (sort_values key l')
  end.

(** [Series.unique()]: the distinct values, in order of first appearance. *)
Fixpoint unique (l : list Timestamp) : list Timestamp :=
  match l with
  | [] => []
  | d :: l' => d :: filter (fun d' => negb (Ts.eqb d d')) (unique l')
  end.

(** [Series.max()] of a non-empty column of dates. *)
Definition later (a b : Timestamp) : Timestamp := if Ts.ltb a b then b else a.

Definition max (d0 : Timestamp) (l : list Timestamp) : Timestamp :=
  fold_left later l d0.

End Ord.

(** ** Prophet: the interface the script calls *)

Module Prophet.

Inductive seasonality_mode : Type := additive | multiplicative.

(** The arguments of the constructor [Prophet(...)]. *)
Record config : Type := mkConfig {
  yearly_seasonality : bool;
  weekly_seasonality : bool;
  daily_seasonality : bool;
  mode : seasonality_mode
}.

(** The numerical core of the library, left abstract: the optimisation
    that turns a prepared history into fitted parameters, and the curve
    those parameters define.  The point forecast and its interval at a date
    depend on the parameters and on that date alone. *)
Class Core : Type := {
  params : Type;
  optimize : config -> list (Timestamp * float) -> params;
  point : params -> Timestamp -> float;
  interval : params -> Timestamp -> float * float
}.

(** A row of the frame [predict] returns. *)
Record Forecast : Type := mkForecast {
  ds : Timestamp;
  yhat : float;
  yhat_lower : float;
  yhat_upper : float
}.

Section Wrapper.

Context {core : Core}.

(** A fitted model: the dates it was given and its parameters. *)
Record Model : Type := mkModel {
  history_dates : list Timestamp;
  fitted : params
}.

(** [Prophet.fit(df)] on the columns [ds] and [y]: rows with a NaN [y] are
    set aside; fewer than two remaining rows is a ValueError; the distinct
    dates are recorded in ascending order; an infinite [y] is a ValueError;
    the history is sorted by date and optimised. *)
Definition fit (cfg : config) (df : list (Timestamp * float)) : outcome Model :=
  let history := filter (fun r => Pd.notna (snd r)) df in
  if (length history <? 2)%nat then Raise ValueError
  else
    let dates := Ord.sort_values (fun d => d) (Ord.unique (map fst df)) in
    if existsb (fun r => Np.isinf (snd r)) history then Raise ValueError
    else Return (mkModel dates (optimize cfg (Ord.sort_values fst history))).

(** [Prophet.predict(df)] on a column [ds]: an empty frame is a ValueError;
    the dates are sorted and each gets its forecast. *)
Definition predict (m : Model) (dates : list Timestamp) : outcome (list Forecast) :=
  match dates with
  | [] => Raise ValueError
  | _ =>
      Return (map (fun d => mkForecast d (point (fitted m) d)
                                       (fst (interval (fitted m) d))
                                       (snd (interval (fitted m) d)))
                  (Ord.sort_values (fun d => d) dates))
  end.

(** [pd.date_range(start, periods=n, freq='MS')]: [n] month starts from the
    first one at or after [start]; at nanosecond resolution, which the
    history of a fitted model has, a date past [Timestamp.max] cannot be
    generated. *)
Definition date_range_MS (start : Timestamp) (n : nat) : outcome (list Timestamp) :=
  let first :=
    if Ts.is_month_start start then Ts.month_index start
    else (Ts.month_index start + 1)%Z in
  if Ts.in_bounds (first + Z.of_nat n - 1)%Z || (n =? 0)%nat then
    Return (map (fun i => Ts.month_start (first + Z.of_nat i)%Z) (seq 0 n))
  else Raise OutOfBoundsDatetime.

(** [Prophet.make_future_dataframe(periods, freq='MS')], history included:
    the recorded dates, then [periods] month starts after the last one. *)
Definition make_future_dataframe (m : Model) (periods : nat) : outcome (list Timestamp) :=
  match history_dates m with
  | [] => Raise ValueError
  | d0 :: rest =>
      let last_date := Ord.max d0 rest in
      dates <- date_range_MS last_date (periods + 1) ;;
      let dates := filter (fun d => Ts.ltb last_date d) dates in
      let dates := firstn periods dates in
      Return (history_dates m ++ dates)
  end.

End Wrapper.

End Prophet.

(** ** sklearn.metrics *)

(** The arithmetic the two metrics are written in.  The script runs them on
    float64; the same formulas read over the real numbers give the exact
    values the doubles approximate. *)
Class Arith (T : Type) : Type := {
  zero : T;
  add : T -> T -> T;
  sub : T -> T -> T;
  mul : T -> T -> T;
  quot : T -> T -> T;
  absolute : T -> T;
  square_root : T -> T;
  of_count : nat -> T;
  finite : T -> bool
}.

#[export] Instance float64 : Arith float := {
  zero := 0%float;
  add := PrimFloat.add;
  sub := PrimFloat.sub;
  mul := PrimFloat.mul;
  quot := PrimFloat.div;
  absolute := PrimFloat.abs;
  square_root := PrimFloat.sqrt;
  of_count := fun n => PrimFloat.of_uint63 (Uint63.of_Z (Z.of_nat n));
  finite := Np.isfinite
}.

#[export] Instance exact : Arith R := {
  zero := 0%R;
  add := Rplus;
  sub := Rminus;
  mul := Rmult;
  quot := Rdiv;
  absolute := Rabs;
  square_root := sqrt;
  of_count := INR;
  finite := fun _ => true
}.

Module Sk.

Section Metrics.

Context {T : Type} {arith : Arith T}.

(** [np.sum] of a column, accumulated from left to right.  numpy may
    associate the additions of a long column in another order, which can
    move the last bit of a sum of doubles. *)
Definition total (s : list T) : T := fold_left add s zero.

(** [np.average(s, axis=0)]. *)
Definition average (s : list T) : T := quot (total s) (of_count (length s)).

(** The input checks shared by the regression metrics: equal lengths, at
    least one sample, no NaN and no infinity. *)
Definition check_targets (y_true y_pred : list T) : outcome unit :=
  if negb (length y_true =? length y_pred)%nat then Raise ValueError
  else if (length y_true =? 0)%nat then Raise ValueError
  else if forallb finite y_true && forallb finite y_pred then Return tt
  else Raise ValueError.

Definition mean_absolute_error (y_true y_pred : list T) : outcome T :=
  _ <- check_targets y_true y_pred ;;
  Return (average (map absolute (Pd.zip_with sub y_pred y_true))).

Definition mean_squared_error (y_true y_pred : list T) : outcome T :=
  _ <- check_targets y_true y_pred ;;
  Return (average (map (fun d => mul d d) (Pd.zip_with sub y_true y_pred))).

(** [np.sqrt(mean_squared_error(...))]. *)
Definition root_mean_squared_error (y_true y_pred : list T) : outcome T :=
  mse <- mean_squared_error y_true y_pred ;;
  Return (square_root mse).

End Metrics.

End Sk.

(** ** Section 5 of the script: forecasting and evaluation *)

Section Forecasting.

Context {core : Prophet.Core}.

(** The configuration both models are built with. *)
Definition cfg : Prophet.config :=
  Prophet.mkConfig true false false Prophet.multiplicative.

(** Line 105: the columns [ds] and [y]. *)
Definition prophet_df (df : list Featured) : list (Timestamp * float) :=
  map (fun r => (f_Date r, f_TransactionVolume_Cr r)) df.

(** Lines 108 and 109. *)
Definition train (df : list Featured) : list (Timestamp * float) :=
  Pd.iloc_upto_neg 12 (prophet_df df).

Definition test (df : list Featured) : list (Timestamp * float) :=
  Pd.iloc_from_neg 12 (prophet_df df).

(** Lines 112 and 113. *)
Definition evaluation_model (df : list Featured) : outcome Prophet.Model :=
  Prophet.fit cfg (train df).

(** Line 116: the request holds the column [ds] of the holdout only. *)
Definition test_forecast (df : list Featured) : outcome (list Prophet.Forecast) :=
  model <- evaluation_model df ;;
  Prophet.predict model (map fst (test df)).

(** Lines 119 and 120, given the forecast of the holdout. *)
Definition score (df : list Featured) (forecast : list Prophet.Forecast)
  : outcome (float * float) :=
  mae <- Sk.mean_absolute_error (map snd (test df)) (map Prophet.yhat forecast) ;;
  rmse <- Sk.root_mean_squared_error (map snd (test df)) (map Prophet.yhat forecast) ;;
  Return (mae, rmse).

(** Lines 126 to 129: the model refitted on every row, and its date grid. *)
Definition full_model (df : list Featured) : outcome Prophet.Model :=
  Prophet.fit cfg (prophet_df df).

Definition future (df : list Featured) : outcome (list Timestamp) :=
  m <- full_model df ;;
  Prophet.make_future_dataframe m 24.

(** The function; plotting has no part in its result. *)
Definition forecast_transactions (df : list Featured) : io (list Prophet.Forecast) :=
  print ForecastBanner ;;;
  forecast <~ lift (test_forecast df) ;;
  metrics <~ lift (score df forecast) ;;
  print EvaluationBanner ;;;
  print (MaeLine (fst metrics)) ;;;
  print (RmseLine (snd metrics)) ;;;
  m <~ lift (full_model df) ;;
  grid <~ lift (Prophet.make_future_dataframe m 24) ;;
  final_forecast <~ lift (Prophet.predict m grid) ;;
  ret final_forecast.

End Forecasting.

(** ** statsmodels: the decomposition the script calls *)

Module Sm.

Inductive model_kind : Type := additive_model | multiplicative_model.

(** The moving-average filtering that splits a series into trend, seasonal
    and residual parts, left abstract. *)
Class Core : Type := {
  components : Type;
  filter_components : model_kind -> list float -> nat -> components
}.

(** [seasonal_decompose(x, model, period)] with the period given: a value
    that is NaN or infinite is a ValueError; so is, for the multiplicative
    model, a value that is zero or negative; so is a series shorter than
    two periods. *)
Definition seasonal_decompose {sm : Core}
  (x : list float) (model : model_kind) (period : nat) : outcome components :=
  if negb (forallb Np.isfinite x) then Raise ValueError
  else if match model with
          | multiplicative_model => existsb (fun v => (v <=? 0)%float) x
          | additive_model => false
          end then Raise ValueError
  else if (length x <? 2 * period)%nat then Raise ValueError
  else Return (filter_components model x period).

End Sm.

(** ** The script as a process: what it prints, draws and writes *)

(** The image files of the charts. *)
Inductive figure : Type :=
| upi_volume_growth_png
| upi_seasonal_heatmap_png
| upi_decomposition_plot_png
| upi_forecast_plot_final_png.

(** The lines printed by the exploratory analysis and by the main block. *)
Inductive notice : Type :=
| EdaBanner           (* "--- Starting Exploratory Data Analysis (EDA) ---" *)
| SavedHeatmap        (* "Saved 'upi_seasonal_heatmap.png'" *)
| SavedDecomposition  (* "Saved 'upi_decomposition_plot.png'" *)
| ProcessedSaved      (* "Processed data saved to 'upi_processed_data.csv'" *)
| ForecastSaved       (* "Forecast data saved to 'upi_forecast_data.csv'" *)
| PipelineComplete    (* "--- Project Pipeline Complete! ---" *).

Inductive effect : Type :=
| Printed (l : line)
| Noticed (n : notice)
| Savefig (f : figure)
| ProcessedCsv (rows : list Featured)          (* upi_processed_data.csv *)
| ForecastCsv (rows : list Prophet.Forecast)   (* upi_forecast_data.csv *).

(** How a run can end early: an exception of the functions above, or an
    exception out of matplotlib or seaborn. *)
Inductive failure : Type :=
| Uncaught (e : exn)
| ChartError.

Inductive ending (A : Type) : Type :=
| Completed (a : A)
| Failed (f : failure).
Arguments Failed {A} f.

Record script (A : Type) : Type :=
  mkScript { effects : list effect; ending_of : ending A }.

Definition done {A} (a : A) : script A := mkScript [] (Completed a).

Definition emit (e : effect) : script unit := mkScript [e] (Completed tt).

Definition script_bind {A B} (m : script A) (k : A -> script B) : script B :=
  match ending_of m with
  | Completed a => mkScript (effects m ++ effects (k a)) (ending_of (k a))
  | Failed f => mkScript (effects m) (Failed f)
  end.

Declare Scope script_scope.
Delimit Scope script_scope with script.
Notation "x <~ m ;; k" := (script_bind m (fun x => k))
  (at level 61, m at next level, right associativity) : script_scope.
Notation "m ;;; k" := (script_bind m (fun _ => k))
  (at level 61, right associativity) : script_scope.

(** A call of one of the functions above, inside the process. *)
Definition call {A} (m : io A) : script A :=
  mkScript (map Printed (stdout m))
           match result m with
           | Return a => Completed a
           | Raise e => Failed (Uncaught e)
           end.

(** A library call that prints nothing. *)
Definition library {A} (m : outcome A) : script A := call (lift m).

(** A drawing step: it goes through or it raises. *)
Definition draw (went_through : bool) : script unit :=
  if went_through then done tt else mkScript [] (Failed ChartError).

(** The charts are outside the embedding: each one is a step that, from the
    data handed to it, goes through or raises. *)
Class Charts {sm : Sm.Core} : Type := {
  (* lines 62 to 71: the volume over the Date index *)
  volume_chart : list Timestamp -> list float -> bool;
  (* lines 77 to 82: the pivot table of the volume by month and year of the
     index, and its heatmap; the rows handed over are (month, year, volume) *)
  heatmap_chart : list (Z * Z * float) -> bool;
  (* lines 90 to 92 *)
  decomposition_chart : Sm.components -> bool;
  (* lines 133 to 136: the fitted history and the forecast *)
  forecast_chart : list (Timestamp * float) -> list Prophet.Forecast -> bool
}.

Section Script.

Context {parser : Pd.Parser} {core : Prophet.Core} {sm : Sm.Core} {charts : Charts}.

Open Scope script_scope.

(** ** Section 4 of the script: exploratory analysis *)

Definition perform_eda (df : list Featured) : script unit :=
  emit (Noticed EdaBanner) ;;;
  draw (volume_chart (map f_Date df) (map f_TransactionVolume_Cr df)) ;;;
  emit (Savefig upi_volume_growth_png) ;;;
  draw (heatmap_chart
          (map (fun r => (month (f_Date r), year (f_Date r),
                          f_TransactionVolume_Cr r)) df)) ;;;
  emit (Savefig upi_seasonal_heatmap_png) ;;;
  emit (Noticed SavedHeatmap) ;;;
  decomposition <~ library (Sm.seasonal_decompose
                              (map f_TransactionVolume_Cr df)
                              Sm.multiplicative_model 12) ;;
  draw (decomposition_chart decomposition) ;;;
  emit (Savefig upi_decomposition_plot_png) ;;;
  emit (Noticed SavedDecomposition).

(** [forecast_transactions] with the chart of lines 132 to 138, which is
    drawn and saved between the last prediction and the return. *)
Definition forecast_transactions_charted (df : list Featured)
  : script (list Prophet.Forecast) :=
  final_forecast <~ call (forecast_transactions df) ;;
  draw (forecast_chart (prophet_df df) final_forecast) ;;;
  emit (Savefig upi_forecast_plot_final_png) ;;;
  done final_forecast.

(** ** The main block *)

(** Lines 143 to 160, from what reading [upi_raw_data.csv] gave. *)
Definition main (csv : read_csv_result) : script unit :=
  df_cleaned <~ call (load_and_clean_data csv) ;;
  match df_cleaned with
  | None => done tt
  | Some df_cleaned =>
      df_featured <~ call (create_features df_cleaned) ;;
      emit (ProcessedCsv df_featured) ;;;
      emit (Noticed ProcessedSaved) ;;;
      perform_eda df_featured ;;;
      transaction_forecast <~ forecast_transactions_charted df_featured ;;
      emit (ForecastCsv transaction_forecast) ;;;
      emit (Noticed ForecastSaved) ;;;
      emit (Noticed PipelineComplete)
  end.

End Script.

(** ** Vocabulary of the statements *)

Definition first_of_month (y m : Z) : Timestamp := mkTimestamp y m 1.

(** The (year, month) pairs that spell a well-formed date. *)
Definition valid_period (y m : Z) : bool := Pd.well_formed y m.

Definition valid_row (r : RawRecord) : bool :=
  valid_period (raw_Year r) (raw_Month r).

(** A cell coerces to a valid non-missing number. *)
Definition valid_number (c : Pd.cell) : bool :=
  match c with
  | Pd.Numeric x => negb (Np.isnan x)
  | Pd.NonNumeric => false
  | Pd.Blank => false
  end.

Definition coerces (r : RawRecord) : bool :=
  valid_number (raw_TransactionVolume_Cr r)
  && valid_number (raw_TransactionValue_RsCr r).

(** The entry a raw record becomes. *)
Definition entry_of (r : RawRecord) : Entry :=
  coerce_row (first_of_month (raw_Year r) (raw_Month r)) r.

Definition period_of (r : RawRecord) : Timestamp :=
  first_of_month (raw_Year r) (raw_Month r).

(** The two integers of a raw record that spell its date. *)
Definition year_month (r : RawRecord) : Z * Z := (raw_Year r, raw_Month r).

(** The columns of a cleaned row other than its date, and what they are for
    a raw record. *)
Definition fields (e : Entry) : Z * Z * float * float :=
  (Year e, Month e, TransactionVolume_Cr e, TransactionValue_RsCr e).

Definition fields_of (r : RawRecord) : Z * Z * float * float :=
  (raw_Year r, raw_Month r,
   Pd.to_numeric (raw_TransactionVolume_Cr r),
   Pd.to_numeric (raw_TransactionValue_RsCr r)).

(** Ascending order of dates. *)
Definition before (a b : Timestamp) : Prop := Ts.ltb a b = true.

Definition ascending (l : list Timestamp) : Prop := StronglySorted before l.

(** What a run of the loader delivers. *)
Definition loads {parser : Pd.Parser} (csv : read_csv_result) (df : list Entry) : Prop :=
  result (load_and_clean_data csv) = Return (Some df).

Definition features (df : list Entry) (f : list Featured) : Prop :=
  result (create_features df) = Return f.

(** The order of dates, spelled out and as the boolean tests decide it. *)
Definition lex_lt (a b : Timestamp) : Prop :=
  (year a < year b
   \/ (year a = year b
       /\ (month a < month b \/ (month a = month b /\ day a < day b))))%Z.

Definition at_most (a b : Timestamp) : Prop := Ts.leb a b = true.

Definition sorted_by_key {A} (key : A -> Timestamp) (l : list A) : Prop :=
  StronglySorted (fun a b => at_most (key a) (key b)) l.

(** The [n] month starts that follow the month of [d]. *)
Definition months_after (d : Timestamp) (n : nat) : list Timestamp :=
  map (fun i => Ts.month_start (Ts.month_index d + Z.of_nat i)) (seq 1 n).

(** Each date of the list is one calendar month after the one before. *)
Definition monthly_steps (l : list Timestamp) : Prop :=
  forall i a b,
    nth_error l i = Some a -> nth_error l (S i) = Some b ->
    Ts.month_index b = (Ts.month_index a + 1)%Z.

Definition month_starts (l : list Timestamp) : Prop :=
  Forall (fun d => Ts.is_month_start d = true) l.

(** The featured frame of a cleaned frame. *)
Definition featured (df : list Entry) : list Featured :=
  assign2 df (AvgTransactionValue_column df) (YoY_column df).

(** The growth of a period: its volume over the volume [shifted] twelve
    rows down to it, as a percentage. *)
Definition growth_pct (v shifted : float) : float :=
  Np.round2 ((v / shifted - 1) * 100)%float.

(** Sign classes of a double and of its specification. *)
Definition signed (s : bool) (x : spec_float) : Prop :=
  match x with
  | S754_zero s' | S754_infinity s' | S754_finite s' _ _ => s' = s
  | S754_nan => False
  end.

Definition nonneg (x : float) : Prop :=
  match Prim2SF x with
  | S754_zero _ => True
  | S754_infinity s | S754_finite s _ _ => s = false
  | S754_nan => False
  end.

Definition not_nan (x : float) : Prop := Prim2SF x <> S754_nan.

(** The sum of a list of reals. *)
Definition Rsum (l : list R) : R := fold_right Rplus 0%R l.


(** A specification value that is a number: not NaN, not an infinity. *)
Definition finite_sf (x : spec_float) : Prop :=
  match x with
  | S754_zero _ | S754_finite _ _ _ => True
  | _ => False
  end.

(** A volume the growth formula can divide by and divide: finite, not zero. *)
Definition usable (v : float) : bool := Np.isfinite v && negb (v =? 0)%float.

Section ForecastParts.

Context {core : Prophet.Core}.

(** The row [predict] builds for a date. *)
Definition forecast_row (m : Prophet.Model) (d : Timestamp) : Prophet.Forecast :=
  Prophet.mkForecast d (Prophet.point (Prophet.fitted m) d)
                     (fst (Prophet.interval (Prophet.fitted m) d))
                     (snd (Prophet.interval (Prophet.fitted m) d)).

(** The last stage of [forecast_transactions]: refit, grid, prediction. *)
Definition final_stage (df : list Featured) : outcome (list Prophet.Forecast) :=
  m <- full_model df ;;
  grid <- Prophet.make_future_dataframe m 24 ;;
  Prophet.predict m grid.

End ForecastParts.

(** The effects of an exploratory analysis that runs to its end. *)
Definition eda_effects : list effect :=
  [ Noticed EdaBanner;
    Savefig upi_volume_growth_png;
    Savefig upi_seasonal_heatmap_png;
    Noticed SavedHeatmap;
    Savefig upi_decomposition_plot_png;
    Noticed SavedDecomposition ].

(** What the main block has done once the processed data is saved. *)
Definition processing_effects (f : list Featured) : list effect :=
  [ Printed LoadedBanner; Printed FeaturesBanner;
    ProcessedCsv f; Noticed ProcessedSaved ].

(** What it does after the forecast is returned. *)
Definition closing_effects (forecast : list Prophet.Forecast) : list effect :=
  [ Savefig upi_forecast_plot_final_png;
    ForecastCsv forecast; Noticed ForecastSaved; Noticed PipelineComplete ].


(** ** A stand-in core and sample inputs *)

(** A parser that refuses every irregular column. *)
Definition refusing : Pd.Parser := {|
  Pd.parse_irregular := fun _ => Raise ValueError
|}.

(** It forecasts the last volume of the sorted history at every date. *)
Definition last_value : Prophet.Core := {|
  Prophet.params := float;
  Prophet.optimize := fun _ history => last (map snd history) nan;
  Prophet.point := fun p _ => p;
  Prophet.interval := fun p _ => (p, p)
|}.

(** [n] consecutive months from January of year [y], with volumes
    [v0, v0 + step, ...] and value twice the volume. *)
Definition monthly_rows (y : Z) (v0 step : float) (n : nat) : list RawRecord :=
  map (fun i =>
         let v := (v0 + step * of_count i)%float in
         mkRaw (y + Z.of_nat i / 12) (Z.of_nat i mod 12 + 1)
               (Pd.Numeric v) (Pd.Numeric (2 * v)%float))
      (seq 0 n).

Definition row (y m : Z) (volume value : Pd.cell) : RawRecord :=
  mkRaw y m volume value.

(** Two good rows around a row with unreadable volume and a row with no
    value. *)
Definition sample_rows : list RawRecord :=
  [ row 2021 1 (Pd.Numeric 100) (Pd.Numeric 200);
    row 2021 2 Pd.NonNumeric (Pd.Numeric 210);
    row 2021 3 (Pd.Numeric 120) Pd.Blank;
    row 2021 4 (Pd.Numeric 130) (Pd.Numeric 260) ].

Definition sample_clean : list Entry :=
  [ mkEntry (first_of_month 2021 1) 2021 1 100 200;
    mkEntry (first_of_month 2021 4) 2021 4 130 260 ].

(** Fourteen months from January 2021, volumes 100, 110, ..., listed the
    newest first. *)
Definition newest_first_rows : list RawRecord := rev (monthly_rows 2021 100 10 14).

(** A good row, then month 13. *)
Definition month13_rows : list RawRecord :=
  [ row 2021 1 (Pd.Numeric 100) (Pd.Numeric 200);
    row 2021 13 (Pd.Numeric 110) (Pd.Numeric 220) ].

(** Fourteen months from January 2021, volumes 100, 110, ... *)
Definition fourteen_months : list Entry :=
  map entry_of (monthly_rows 2021 100 10 14).

Definition fourteen_featured : list Featured := featured fourteen_months.

(** Twelve featured rows: the first twelve of the fourteen. *)
Definition twelve_featured : list Featured := firstn 12 fourteen_featured.

(** The fourteen months again, with every holdout volume replaced. *)
Definition fourteen_other : list Featured :=
  firstn 2 fourteen_featured
  ++ map (fun r => mkFeatured (f_Date r) (f_Year r) (f_Month r)
                              999 (f_TransactionValue_RsCr r)
                              (AvgTransactionValue_Rs r) (YoY_Volume_Growth_pct r))
         (skipn 2 fourteen_featured).

(** Fourteen rows over fifteen months: June 2021 is missing. *)
Definition gap_featured : list Featured :=
  let rows := monthly_rows 2021 100 10 15 in
  featured (map entry_of (firstn 5 rows ++ skipn 6 rows)).

(** Thirteen months from January 2021 with no transactions at all. *)
Definition idle_months : list Entry :=
  map entry_of (monthly_rows 2021 0 0 13).

(** One ordinary month, one month with value but no volume, one month with
    neither. *)
Definition zero_volume_months : list Entry :=
  [ mkEntry (first_of_month 2021 1) 2021 1 100 250;
    mkEntry (first_of_month 2021 2) 2021 2 0 5;
    mkEntry (first_of_month 2021 3) 2021 3 0 0 ].

(** Twelve actual volumes of zero against predictions that are off by
    1, ..., 1, 5. *)
Definition actual_zeros : list float := repeat 0%float 12.
Definition off_by_ones_and_five : list float := repeat 1%float 11 ++ [5%float].

(** Twelve actual volumes of 2^-700 against predictions of zero. *)
Definition actual_tiny : list float := repeat 0x1p-700%float 12.

(** A decomposition that keeps the observed series alone. *)
Definition observed_only : Sm.Core := {|
  Sm.components := list float;
  Sm.filter_components := fun _ x _ => x
|}.

(** Every chart is drawn. *)
Definition every_chart_drawn : Charts (sm := observed_only) := {|
  volume_chart := fun _ _ => true;
  heatmap_chart := fun _ => true;
  decomposition_chart := fun _ => true;
  forecast_chart := fun _ _ => true
|}.

(** Two years of months from January 2021, volumes 100, 110, ... *)
Definition two_years : list RawRecord := monthly_rows 2021 100 10 24.

(** Fourteen months whose last volume reads as infinity. *)
Definition overflowing_featured : list Featured :=
  featured (map entry_of
                (monthly_rows 2021 100 10 13
                 ++ [row 2022 2 (Pd.Numeric infinity) (Pd.Numeric 200)])).


(** * Properties *)

(** ** The two monads *)

Lemma bind_Return {A B} (m : outcome A) (k : A -> outcome B) (b : B) :
  bind m k = Return b -> exists a, m = Return a /\ k a = Return b.
Proof.
  destruct m as [a|e]; simpl; intros H; [exists a; auto | discriminate].
Qed.

Lemma result_io_bind {A B} (m : io A) (k : A -> io B) :
  result (io_bind m k) = bind (result m) (fun a => result (k a)).
Proof.
  unfold io_bind. destruct (result m); reflexivity.
Qed.

Lemma result_lift {A} (m : outcome A) : result (lift m) = m.
Proof. reflexivity. Qed.

(** ** Lists *)

Lemma zip_with_map_l {A B C} (f : A -> B -> C) (g : B -> A) (l : list B) :
  Pd.zip_with f (map g l) l = map (fun x => f (g x) x) l.
Proof.
  induction l as [|x l IH]; simpl; [reflexivity | now rewrite IH].
Qed.

Lemma zip_with_length {A B C} (f : A -> B -> C) (s : list A) (t : list B) :
  length (Pd.zip_with f s t) = Nat.min (length s) (length t).
Proof.
  revert t; induction s as [|x s IH]; intros [|y t]; simpl; auto.
Qed.

Lemma zip_with_nth_error {A B C} (f : A -> B -> C) (s : list A) (t : list B) i x y :
  nth_error s i = Some x -> nth_error t i = Some y ->
  nth_error (Pd.zip_with f s t) i = Some (f x y).
Proof.
  revert t i; induction s as [|a s IH]; intros [|b t] [|i]; simpl;
    try discriminate.
  - intros [= ->] [= ->]. reflexivity.
  - apply IH.
Qed.

(** ** Loading and cleaning *)

Lemma forallb_map_compose {A B} (p : B -> bool) (g : A -> B) (l : list A) :
  forallb p (map g l) = forallb (fun x => p (g x)) l.
Proof.
  induction l as [|x l IH]; simpl; [reflexivity | now rewrite IH].
Qed.

Lemma to_datetime_valid {parser : Pd.Parser} (rows : list RawRecord) :
  forallb valid_row rows = true ->
  Pd.to_datetime (map year_month rows) = Return (map period_of rows).
Proof.
  intros H. unfold Pd.to_datetime.
  rewrite forallb_map_compose.
  change (forallb (fun r => Pd.well_formed (fst (year_month r)) (snd (year_month r))) rows)
    with (forallb valid_row rows).
  rewrite H, map_map. reflexivity.
Qed.

(** Every row gets a date, or the call raises. *)
Lemma to_datetime_length {parser : Pd.Parser} col dates :
  Pd.to_datetime col = Return dates -> length dates = length col.
Proof.
  unfold Pd.to_datetime.
  destruct (forallb _ col).
  - intros [= <-]. apply length_map.
  - destruct (Pd.parse_irregular col) as [reading|e]; simpl; [|discriminate].
    intros [= <-]. now rewrite length_map, length_seq.
Qed.

Lemma valid_number_to_numeric (c : Pd.cell) :
  Pd.notna (Pd.to_numeric c) = valid_number c.
Proof. destruct c; reflexivity. Qed.

Lemma complete_coerce_row (d : Timestamp) (r : RawRecord) :
  complete (coerce_row d r) = coerces r.
Proof.
  unfold complete, coerces, coerce_row; simpl.
  now rewrite !valid_number_to_numeric.
Qed.

Lemma complete_entry_of (r : RawRecord) : complete (entry_of r) = coerces r.
Proof. apply complete_coerce_row. Qed.

Lemma filter_map_commute {A B} (f : A -> B) (p : B -> bool) (l : list A) :
  filter p (map f l) = map f (filter (fun x => p (f x)) l).
Proof.
  induction l as [|x l IH]; simpl; [reflexivity|].
  destruct (p (f x)); simpl; now rewrite IH.
Qed.

(** The loader on a table, by what the date conversion does. *)
Lemma load_Return {parser : Pd.Parser} (rows : list RawRecord) dates :
  Pd.to_datetime (map year_month rows) = Return dates ->
  load_and_clean_data (Table rows)
  = mkIo [LoadedBanner] (Return (Some (dropna (Pd.zip_with coerce_row dates rows)))).
Proof.
  intros H. unfold load_and_clean_data.
  change (map (fun r => (raw_Year r, raw_Month r)) rows) with (map year_month rows).
  rewrite H. reflexivity.
Qed.

Lemma load_Raise {parser : Pd.Parser} (rows : list RawRecord) e :
  Pd.to_datetime (map year_month rows) = Raise e ->
  load_and_clean_data (Table rows) = mkIo [] (Raise e).
Proof.
  intros H. unfold load_and_clean_data.
  change (map (fun r => (raw_Year r, raw_Month r)) rows) with (map year_month rows).
  rewrite H. reflexivity.
Qed.

(** A table whose periods are all valid is cleaned, in its own order. *)
Lemma load_valid {parser : Pd.Parser} (rows : list RawRecord) :
  forallb valid_row rows = true ->
  load_and_clean_data (Table rows)
  = mkIo [LoadedBanner] (Return (Some (map entry_of (filter coerces rows)))).
Proof.
  intros H. rewrite (load_Return _ (to_datetime_valid _ H)).
  unfold dropna. rewrite zip_with_map_l.
  rewrite (filter_map_commute (fun r => coerce_row (period_of r) r)).
  replace (filter (fun r => complete (coerce_row (period_of r) r)) rows)
    with (filter coerces rows)
    by (apply filter_ext; intros r; symmetry; apply complete_entry_of).
  reflexivity.
Qed.

(** A frame comes from a table only, after the banner, and holds the rows
    that coerce, each with the date read in its row of the table. *)
Lemma loads_inv {parser : Pd.Parser} (rows : list RawRecord) (df : list Entry) :
  loads (Table rows) df ->
  exists dates,
    Pd.to_datetime (map year_month rows) = Return dates
    /\ length dates = length rows
    /\ df = dropna (Pd.zip_with coerce_row dates rows).
Proof.
  unfold loads. intros H.
  destruct (Pd.to_datetime (map year_month rows)) as [dates|e] eqn:E.
  - rewrite (load_Return _ E) in H. injection H as <-.
    exists dates. split; [reflexivity|]. split; [|reflexivity].
    rewrite (to_datetime_length _ E). apply length_map.
  - rewrite (load_Raise _ E) in H. discriminate.
Qed.

Lemma loads_Table {parser : Pd.Parser} csv (df : list Entry) :
  loads csv df ->
  exists rows, csv = Table rows
               /\ load_and_clean_data csv = mkIo [LoadedBanner] (Return (Some df)).
Proof.
  destruct csv as [|e| |rows]; try discriminate.
  intros H. exists rows. split; [reflexivity|].
  destruct (loads_inv H) as (dates & E & _ & ->).
  apply (load_Return _ E).
Qed.

Lemma loads_valid_inv {parser : Pd.Parser} (rows : list RawRecord) (df : list Entry) :
  forallb valid_row rows = true -> loads (Table rows) df ->
  df = map entry_of (filter coerces rows).
Proof.
  intros Hv H. unfold loads in H. rewrite (load_valid _ Hv) in H.
  now injection H.
Qed.

(** The frame is the rows that coerce, each under the date read in its row
    of the table. *)
Lemma dropna_zip_with (dates : list Timestamp) (rows : list RawRecord) :
  dropna (Pd.zip_with coerce_row dates rows)
  = Pd.zip_with coerce_row
      (map fst (filter (fun p => coerces (snd p)) (combine dates rows)))
      (filter coerces rows).
Proof.
  unfold dropna. revert rows.
  induction dates as [|d dates IH]; intros [|r rows]; simpl; try reflexivity.
  rewrite complete_coerce_row. destruct (coerces r); simpl; now rewrite IH.
Qed.

(** Apart from the date, the frame is the coerced table without the rows
    that do not coerce. *)
Lemma cleaned_fields (dates : list Timestamp) (rows : list RawRecord) :
  length dates = length rows ->
  map fields (dropna (Pd.zip_with coerce_row dates rows))
  = map fields_of (filter coerces rows).
Proof.
  unfold dropna. revert rows.
  induction dates as [|d dates IH]; intros [|r rows]; simpl; try discriminate;
    [reflexivity|].
  intros [= Hlen]. rewrite complete_coerce_row.
  destruct (coerces r); simpl; now rewrite IH.
Qed.

(** A row that coerces is kept, with the date read at its place. *)
Lemma coercible_row_kept (dates : list Timestamp) (rows : list RawRecord) r :
  length dates = length rows -> In r rows -> coerces r = true ->
  exists d, In (coerce_row d r) (dropna (Pd.zip_with coerce_row dates rows)).
Proof.
  unfold dropna. revert rows.
  induction dates as [|d dates IH]; intros [|r' rows]; simpl; try discriminate;
    [intros _ []|].
  intros [= Hlen] [->|Hin] Hc.
  - exists d. rewrite complete_coerce_row, Hc. now left.
  - destruct (IH _ Hlen Hin Hc) as [d' Hd']. exists d'.
    destruct (complete (coerce_row d r')); [now right | exact Hd'].
Qed.

(** ** Feature engineering *)

Lemma ffill_from_length last s : length (Pd.ffill_from last s) = length s.
Proof.
  revert last; induction s as [|x s IH]; intros last; simpl; [reflexivity|].
  destruct (Pd.isna x); simpl; now rewrite IH.
Qed.

Lemma shift_length k s : length (Pd.shift k s) = length s.
Proof.
  unfold Pd.shift. rewrite length_firstn, length_app, repeat_length. lia.
Qed.

Lemma pct_change_length k s : length (Pd.pct_change k s) = length s.
Proof.
  unfold Pd.pct_change, Pd.div, Pd.ffill.
  rewrite length_map, zip_with_length, shift_length, ffill_from_length. lia.
Qed.

Lemma Avg_column_length df : length (AvgTransactionValue_column df) = length df.
Proof.
  unfold AvgTransactionValue_column, Pd.round2, Pd.div.
  rewrite length_map, zip_with_length, !length_map. lia.
Qed.

Lemma YoY_column_length df : length (YoY_column df) = length df.
Proof.
  unfold YoY_column, Pd.round2.
  now rewrite !length_map, pct_change_length, length_map.
Qed.

(** With columns as long as the frame, assignment keeps every row and
    stores each column as given. *)
Lemma assign2_columns df avg yoy :
  length avg = length df -> length yoy = length df ->
  map original (assign2 df avg yoy) = df
  /\ map AvgTransactionValue_Rs (assign2 df avg yoy) = avg
  /\ map YoY_Volume_Growth_pct (assign2 df avg yoy) = yoy.
Proof.
  revert avg yoy; induction df as [|e df IH]; intros [|a avg] [|g yoy];
    simpl; try discriminate; auto.
  intros [= Ha] [= Hg]. destruct (IH _ _ Ha Hg) as (-> & -> & ->).
  destruct e; auto.
Qed.

Lemma create_features_result df :
  create_features df
  = mkIo [FeaturesBanner]
         (Return (assign2 df (AvgTransactionValue_column df) (YoY_column df))).
Proof. reflexivity. Qed.

Lemma features_columns df f :
  features df f ->
  map original f = df
  /\ map AvgTransactionValue_Rs f = AvgTransactionValue_column df
  /\ map YoY_Volume_Growth_pct f = YoY_column df.
Proof.
  unfold features. rewrite create_features_result. simpl. intros [= <-].
  apply assign2_columns; [apply Avg_column_length | apply YoY_column_length].
Qed.

Lemma features_total df : exists f, features df f.
Proof. eexists. unfold features. rewrite create_features_result. reflexivity. Qed.

(** ** Facts of binary64 arithmetic, from the specification of the
       primitive operations *)

Section Binary64.

Open Scope float_scope.

Lemma Prim2SF_nan : Prim2SF nan = S754_nan.
Proof. reflexivity. Qed.

Lemma Prim2SF_zero : Prim2SF 0 = S754_zero false.
Proof. reflexivity. Qed.

Lemma SFcompare_finite_refl s m e :
  SFcompare (S754_finite s m e) (S754_finite s m e) = Some Eq.
Proof.
  simpl. rewrite Z.compare_refl, Pos.compare_cont_refl. now destruct s.
Qed.

(** A float is NaN, as [isnan] tests it, exactly when it is the NaN. *)
Lemma isnan_spec x : Np.isnan x = true <-> x = nan.
Proof.
  split; [|intros ->; reflexivity].
  unfold Np.isnan. rewrite FloatAxioms.eqb_spec. intros H.
  apply Prim2SF_inj. rewrite Prim2SF_nan.
  unfold SFeqb in H.
  destruct (Prim2SF x) as [s|s| |s m e]; try reflexivity.
  - destruct s; discriminate.
  - destruct s; discriminate.
  - rewrite SFcompare_finite_refl in H. discriminate.
Qed.

Lemma eqb_zero_spec y : (y =? 0) = true <-> exists s, Prim2SF y = S754_zero s.
Proof.
  rewrite FloatAxioms.eqb_spec, Prim2SF_zero. unfold SFeqb, SFcompare.
  split.
  - destruct (Prim2SF y) as [s|s| |s m e]; try discriminate; eauto;
      destruct s; discriminate.
  - intros [s ->]. reflexivity.
Qed.

(** Anything divided by NaN is NaN. *)
Lemma div_nan_r x : x / nan = nan.
Proof.
  apply Prim2SF_inj. rewrite FloatAxioms.div_spec, Prim2SF_nan.
  unfold SF64div. destruct (Prim2SF x); reflexivity.
Qed.

(** Division by a zero: NaN for a zero or NaN numerator, an infinity for
    any other. *)
Lemma div_zero_r x y :
  (y =? 0) = true ->
  (x / y = nan /\ ((x =? 0) = true \/ Np.isnan x = true))
  \/ ((x / y = infinity \/ x / y = neg_infinity)
      /\ (x =? 0) = false /\ Np.isnan x = false).
Proof.
  intros Hy. apply eqb_zero_spec in Hy as [sy Ey].
  assert (Hx0 : (x =? 0) = SFeqb (Prim2SF x) (S754_zero false))
    by (now rewrite FloatAxioms.eqb_spec, Prim2SF_zero).
  assert (Hxn : Np.isnan x = negb (SFeqb (Prim2SF x) (Prim2SF x)))
    by (unfold Np.isnan; now rewrite FloatAxioms.eqb_spec).
  rewrite <- (SF2Prim_Prim2SF (x / y)).
  rewrite FloatAxioms.div_spec, Ey, Hx0, Hxn. unfold SF64div, SFeqb.
  destruct (Prim2SF x) as [s|s| |s m e].
  - left. simpl. auto.
  - right. simpl. destruct s, sy; simpl; auto.
  - left. simpl. auto.
  - right. rewrite SFcompare_finite_refl. simpl. destruct s, sy; simpl; auto.
Qed.

(** The rounding of the script keeps the three special values. *)
Lemma round2_special :
  Np.round2 nan = nan
  /\ Np.round2 infinity = infinity
  /\ Np.round2 neg_infinity = neg_infinity.
Proof. repeat split; reflexivity. Qed.

End Binary64.

(** ** The year-over-year column *)

Lemma ffill_from_notna last s :
  forallb Pd.notna s = true -> Pd.ffill_from last s = s.
Proof.
  revert last; induction s as [|x s IH]; intros last; simpl; [reflexivity|].
  intros H. apply andb_true_iff in H as [Hx Hs].
  unfold Pd.notna in Hx. apply negb_true_iff in Hx. rewrite Hx.
  now rewrite IH.
Qed.

Lemma shift_nth_error_lt k s t :
  (t < k)%nat -> (t < length s)%nat -> nth_error (Pd.shift k s) t = Some nan.
Proof.
  intros Hk Hs. unfold Pd.shift. rewrite nth_error_firstn.
  apply Nat.ltb_lt in Hs as ->.
  rewrite nth_error_app1 by (rewrite repeat_length; lia).
  apply nth_error_repeat. exact Hk.
Qed.

Lemma shift_nth_error_ge k s t :
  (k <= t)%nat -> (t < length s)%nat ->
  nth_error (Pd.shift k s) t = nth_error s (t - k).
Proof.
  intros Hk Hs. unfold Pd.shift. rewrite nth_error_firstn.
  apply Nat.ltb_lt in Hs as ->.
  rewrite nth_error_app2 by (rewrite repeat_length; lia).
  now rewrite repeat_length.
Qed.

Lemma nth_error_in_range {A} (l : list A) t :
  (t < length l)%nat -> exists x, nth_error l t = Some x.
Proof.
  intros H. destruct (nth_error l t) eqn:E; [eauto|].
  apply nth_error_None in E. lia.
Qed.

Lemma YoY_column_nth_error vols t v w :
  forallb Pd.notna vols = true ->
  nth_error vols t = Some v ->
  nth_error (Pd.shift 12 vols) t = Some w ->
  nth_error (Pd.round2 (map (fun g => (g * 100)%float) (Pd.pct_change 12 vols))) t
  = Some (growth_pct v w).
Proof.
  intros Hna Hv Hw. unfold Pd.round2, Pd.pct_change, Pd.ffill, Pd.div.
  rewrite (ffill_from_notna _ _ Hna).
  rewrite !nth_error_map.
  now rewrite (zip_with_nth_error PrimFloat.div _ _ _ Hv Hw).
Qed.

Lemma growth_pct_nan v : growth_pct v nan = nan.
Proof. unfold growth_pct. rewrite div_nan_r. reflexivity. Qed.

Lemma complete_volume_notna (df : list Entry) :
  forallb complete df = true ->
  forallb Pd.notna (map TransactionVolume_Cr df) = true.
Proof.
  induction df as [|e df IH]; simpl; intros H; [reflexivity|].
  apply andb_true_iff in H as [He Hdf]. unfold complete in He.
  apply andb_true_iff in He as [-> _]. simpl. auto.
Qed.

(** Every frame the loader returns is complete. *)
Lemma loads_complete {parser : Pd.Parser} csv df :
  loads csv df -> forallb complete df = true.
Proof.
  intros H. destruct (loads_Table H) as (rows & -> & _).
  destruct (loads_inv H) as (dates & _ & _ & ->).
  apply forallb_forall. intros e He. unfold dropna in He.
  now apply filter_In in He.
Qed.

(** ** Claims on loading and cleaning *)

(** C6. Whenever the loader returns a frame for a table, the frame has no
    more rows than the table; it is the table's coercible rows, coerced, in
    the table's order, each under the date read in its row; and a row of
    the table is in it exactly when its volume and its value both coerce to
    non-missing numbers.  On a table of valid periods the date is the first
    day of the row's (year, month). *)
Theorem cleaning_keeps_coercible_rows
  {parser : Pd.Parser} (rows : list RawRecord) (df : list Entry) :
  loads (Table rows) df ->
  (length df <= length rows)%nat
  /\ map fields df = map fields_of (filter coerces rows)
  /\ (forall r, In r rows ->
        ((exists d, In (coerce_row d r) df) <-> coerces r = true))
  /\ (forallb valid_row rows = true -> df = map entry_of (filter coerces rows))
  /\ exists dates,
       Pd.to_datetime (map year_month rows) = Return dates
       /\ length dates = length rows
       /\ df = Pd.zip_with coerce_row
                  (map fst (filter (fun p => coerces (snd p)) (combine dates rows)))
                  (filter coerces rows).
Proof.
  intros H. destruct (loads_inv H) as (dates & Hdates & Hlen & Hdf).
  rewrite Hdf in *.
  pose proof (@cleaned_fields _ _ Hlen) as Hfields.
  split; [|split; [exact Hfields|split; [|split]]].
  - apply (f_equal (@length _)) in Hfields. rewrite !length_map in Hfields.
    rewrite Hfields. apply filter_length_le.
  - intros r Hr. split.
    + intros [d Hd]. unfold dropna in Hd. apply filter_In in Hd as [_ Hc].
      now rewrite complete_coerce_row in Hc.
    + now apply coercible_row_kept.
  - intros Hv. exact (loads_valid_inv Hv H).
  - exists dates. split; [exact Hdates|]. split; [exact Hlen|].
    apply dropna_zip_with.
Qed.

Lemma cleaning_keeps_coercible_rows_witness :
  loads (parser := refusing) (Table sample_rows) sample_clean
  /\ (length sample_clean <= length sample_rows)%nat
  /\ map fields sample_clean = map fields_of (filter coerces sample_rows)
  /\ sample_clean = map entry_of (filter coerces sample_rows)
  /\ forall r, In r sample_rows ->
               ((exists d, In (coerce_row d r) sample_clean) <-> coerces r = true).
Proof.
  assert (H : loads (parser := refusing) (Table sample_rows) sample_clean)
    by reflexivity.
  destruct (@cleaning_keeps_coercible_rows refusing sample_rows sample_clean H)
    as (Hlen & Hf & Hin & Hv & _).
  split; [exact H|]. split; [exact Hlen|]. split; [exact Hf|].
  split; [apply Hv; reflexivity | exact Hin].
Defined.

(** C7, as the code has it. A missing file is reported and the loader
    returns no frame, and only a missing file does that: any other failure
    of the read is an exception nobody catches.  On a table the run fails
    exactly when the date conversion raises, which the Year and Month
    columns decide alone: unreadable or missing numbers never fail the run,
    their rows are left out.  A table whose periods are all valid is never
    refused and every retained row gets the first day of its (year, month).
    A row with an invalid period is not left out on that account: when the
    loader returns a frame, every row that coerces is in it. *)
Theorem ingestion_failure_modes {parser : Pd.Parser} (csv : read_csv_result) :
  (result (load_and_clean_data csv) = Return None <-> csv = FileNotFoundError)
  /\ (csv = FileNotFoundError ->
      load_and_clean_data csv = mkIo [FileNotFoundMessage] (Return None))
  /\ (forall e, csv = ReadError e -> load_and_clean_data csv = mkIo [] (Raise e))
  /\ forall rows, csv = Table rows ->
       (forall e, load_and_clean_data csv = mkIo [] (Raise e)
                  <-> Pd.to_datetime (map year_month rows) = Raise e)
       /\ ((exists df, loads csv df)
           \/ exists e, load_and_clean_data csv = mkIo [] (Raise e))
       /\ (forallb valid_row rows = true ->
           load_and_clean_data csv
           = mkIo [LoadedBanner] (Return (Some (map entry_of (filter coerces rows))))
           /\ forall r, Date (entry_of r) = mkTimestamp (raw_Year r) (raw_Month r) 1)
       /\ (forall df r, loads csv df -> In r rows -> coerces r = true ->
                        exists d, In (coerce_row d r) df).
Proof.
  split; [|split; [|split]].
  - split; [|intros ->; reflexivity].
    destruct csv as [|e| |rows]; try discriminate; [reflexivity|].
    destruct (Pd.to_datetime (map year_month rows)) as [dates|e] eqn:E.
    + rewrite (load_Return _ E). discriminate.
    + rewrite (load_Raise _ E). discriminate.
  - intros ->. reflexivity.
  - intros e ->. reflexivity.
  - intros rows ->.
    destruct (Pd.to_datetime (map year_month rows)) as [dates|e] eqn:E.
    + split; [|split; [|split]].
      * intros e. rewrite (load_Return _ E). split; discriminate.
      * left. eexists. unfold loads. rewrite (load_Return _ E). reflexivity.
      * intros Hv. split; [apply (load_valid _ Hv) | reflexivity].
      * intros df r H Hr Hc. destruct (loads_inv H) as (dates' & _ & Hlen & ->).
        now apply coercible_row_kept.
    + split; [|split; [|split]].
      * intros e'. rewrite (load_Raise _ E). split; congruence.
      * right. exists e. apply (load_Raise _ E).
      * intros Hv. rewrite (to_datetime_valid _ Hv) in E. discriminate.
      * intros df r H. unfold loads in H. rewrite (load_Raise _ E) in H.
        discriminate.
Qed.

(** C7 as stated fails: a row with month 13 is not handled by leaving it
    out.  Whatever the library's parser makes of the column, either the
    date conversion raises and the run ends with nothing printed, or the
    row is in the cleaned frame. *)
Lemma invalid_month_is_never_excluded :
  valid_row (row 2021 13 (Pd.Numeric 110) (Pd.Numeric 220)) = false
  /\ In (row 2021 13 (Pd.Numeric 110) (Pd.Numeric 220)) month13_rows
  /\ forall parser : Pd.Parser,
       (exists e, load_and_clean_data (Table month13_rows) = mkIo [] (Raise e))
       \/ (exists df d,
             loads (Table month13_rows) df
             /\ length df = 2%nat
             /\ In (coerce_row d (row 2021 13 (Pd.Numeric 110) (Pd.Numeric 220))) df).
Proof.
  split; [reflexivity|]. split; [simpl; auto|].
  intros parser.
  destruct (Pd.to_datetime (map year_month month13_rows)) as [dates|e] eqn:E.
  - right.
    pose proof (to_datetime_length _ E) as Hlen.
    destruct dates as [|d0 [|d1 [|d2 dates]]]; try discriminate.
    exists (dropna (Pd.zip_with coerce_row [d0; d1] month13_rows)), d1.
    split; [unfold loads; now rewrite (load_Return _ E)|].
    split; [reflexivity | simpl; auto].
  - left. exists e. apply (load_Raise _ E).
Qed.

(** C5, at a table that lists its months newest first.  The loader keeps
    the order of the table, so the cleaned frame is descending; the first
    two rows, the two latest months, train the evaluation model and the
    twelve months held out are the oldest, not the last twelve months;
    their forecast comes back in ascending date order, so row for row it
    faces the holdout volumes of other months.  Every date of the table is
    well formed, so this is so for every parser, and for every core. *)
Theorem newest_first_table_holds_out_the_oldest_months
  {parser : Pd.Parser} {core : Prophet.Core} :
  exists df forecast,
    loads (Table newest_first_rows) df
    /\ map Date df = rev (map period_of (monthly_rows 2021 100 10 14))
    /\ map fst (train (featured df))
       = [first_of_month 2022 2; first_of_month 2022 1]
    /\ map fst (test (featured df))
       = rev (map period_of (monthly_rows 2021 100 10 12))
    /\ test_forecast (featured df) = Return forecast
    /\ map Prophet.ds forecast = map period_of (monthly_rows 2021 100 10 12).
Proof.
  eexists. eexists. split; [vm_compute; reflexivity|].
  repeat split; vm_compute; reflexivity.
Qed.

(** ** Claims on feature engineering *)

(** C10. Feature engineering returns a frame with one row per row of its
    input, in the same order, whose date, year, month, volume and value are
    those of the input; what it adds are the two derived columns. *)
Theorem feature_derivation_is_non_destructive (df : list Entry) :
  exists f,
    create_features df = mkIo [FeaturesBanner] (Return f)
    /\ length f = length df
    /\ map original f = df
    /\ map AvgTransactionValue_Rs f = AvgTransactionValue_column df
    /\ map YoY_Volume_Growth_pct f = YoY_column df.
Proof.
  exists (assign2 df (AvgTransactionValue_column df) (YoY_column df)).
  destruct (assign2_columns df _ _ (Avg_column_length df) (YoY_column_length df))
    as (Ho & Ha & Hy).
  split; [apply create_features_result|].
  split; [|auto].
  rewrite <- (length_map original), Ho. reflexivity.
Qed.

(** C3, as the code has it. On a frame with no missing value, the growth
    column is NaN at each of the first twelve rows, and at every later row
    [t] it is [(volume[t] / volume[t-12] - 1) * 100] rounded to two
    decimals, computed in doubles. *)
Theorem yoy_growth_column (df : list Entry) (f : list Featured) (t : nat) :
  forallb complete df = true -> features df f -> (t < length df)%nat ->
  nth_error (map YoY_Volume_Growth_pct f) t
  = Some (if (t <? 12)%nat then nan
          else growth_pct (nth t (map TransactionVolume_Cr df) nan)
                          (nth (t - 12) (map TransactionVolume_Cr df) nan)).
Proof.
  intros Hc Hf Ht. apply features_columns in Hf as (_ & _ & ->).
  set (vols := map TransactionVolume_Cr df).
  assert (Hlen : length vols = length df) by apply length_map.
  assert (Hv : nth_error vols t = Some (nth t vols nan))
    by (apply nth_error_nth'; lia).
  pose proof (complete_volume_notna _ Hc) as Hna. fold vols in Hna.
  unfold YoY_column. fold vols.
  destruct (t <? 12)%nat eqn:E.
  - apply Nat.ltb_lt in E.
    assert (Hs : nth_error (Pd.shift 12 vols) t = Some nan)
      by (apply shift_nth_error_lt; lia).
    rewrite (@YoY_column_nth_error _ _ _ _ Hna Hv Hs).
    now rewrite growth_pct_nan.
  - apply Nat.ltb_ge in E.
    apply (@YoY_column_nth_error _ _ _ _ Hna Hv).
    rewrite shift_nth_error_ge by lia.
    apply nth_error_nth'. lia.
Qed.

Lemma yoy_growth_column_witness :
  forallb complete fourteen_months = true
  /\ features fourteen_months fourteen_featured
  /\ nth_error (map YoY_Volume_Growth_pct fourteen_featured) 13
     = Some (growth_pct 230 110)
  /\ growth_pct 230 110 = 0x1.b45c28f5c28f6p+6%float (* 109.09 *).
Proof.
  assert (Hc : forallb complete fourteen_months = true) by reflexivity.
  assert (Hf : features fourteen_months fourteen_featured) by reflexivity.
  assert (Ht : (13 < length fourteen_months)%nat) by (vm_compute; lia).
  split; [exact Hc|]. split; [exact Hf|]. split; [|reflexivity].
  exact (@yoy_growth_column fourteen_months fourteen_featured 13 Hc Hf Ht).
Defined.

(** C3 as stated fails: the column is undefined beyond the first twelve
    rows too.  After thirteen months without transactions the growth of
    the thirteenth month is 0/0, which is NaN. *)
Lemma yoy_undefined_after_first_year :
  (forall parser : Pd.Parser, loads (Table (monthly_rows 2021 0 0 13)) idle_months)
  /\ (12 < length idle_months)%nat
  /\ nth_error (YoY_column idle_months) 12 = Some nan
  /\ exists f, features idle_months f
               /\ nth_error (map YoY_Volume_Growth_pct f) 12 = Some nan.
Proof.
  split; [intros parser; reflexivity|].
  split; [vm_compute; lia|]. split; [reflexivity|].
  eexists. split; reflexivity.
Qed.

(** C4, as the code has it. Every row's average is its value divided by
    its volume, rounded to two decimals in doubles, and nothing raises.
    Where the volume is zero the average is NaN if the value is zero (or
    missing) and an infinity otherwise. *)
Theorem average_value_per_unit (df : list Entry) (f : list Featured) :
  features df f ->
  Forall (fun r =>
            let value := f_TransactionValue_RsCr r in
            let volume := f_TransactionVolume_Cr r in
            let avg := AvgTransactionValue_Rs r in
            avg = Np.round2 (value / volume)
            /\ ((volume =? 0)%float = true ->
                (avg = nan /\ ((value =? 0)%float = true \/ Np.isnan value = true))
                \/ ((avg = infinity \/ avg = neg_infinity)
                    /\ (value =? 0)%float = false /\ Np.isnan value = false)))
         f.
Proof.
  intros Hf. apply features_columns in Hf as (Ho & Ha & _).
  assert (Heq : Forall (fun r => AvgTransactionValue_Rs r
                 = Np.round2 (f_TransactionValue_RsCr r / f_TransactionVolume_Cr r))
                 f).
  { subst df. unfold AvgTransactionValue_column, Pd.round2, Pd.div in Ha.
    rewrite !map_map in Ha. simpl in Ha. clear -Ha.
    induction f as [|r f IH]; constructor.
    - simpl in Ha. now injection Ha.
    - apply IH. simpl in Ha. now injection Ha. }
  eapply Forall_impl; [|exact Heq]. cbv zeta. intros r Hr.
  split; [exact Hr|]. intros Hz. rewrite Hr.
  destruct (div_zero_r (f_TransactionValue_RsCr r) Hz)
    as [[-> Hx] | [[-> | ->] Hx]].
  - left. split; [reflexivity | exact Hx].
  - right. split; [left; reflexivity | exact Hx].
  - right. split; [right; reflexivity | exact Hx].
Qed.

Lemma average_value_per_unit_witness :
  features zero_volume_months (featured zero_volume_months)
  /\ map AvgTransactionValue_Rs (featured zero_volume_months)
     = [2.5; infinity; nan]%float
  /\ Forall (fun r =>
               AvgTransactionValue_Rs r
               = Np.round2 (f_TransactionValue_RsCr r / f_TransactionVolume_Cr r))
            (featured zero_volume_months).
Proof.
  assert (Hf : features zero_volume_months (featured zero_volume_months))
    by reflexivity.
  split; [exact Hf|]. split; [reflexivity|].
  eapply Forall_impl;
    [|exact (@average_value_per_unit zero_volume_months
               (featured zero_volume_months) Hf)].
  intros r [Hr _]. exact Hr.
Defined.

(** C4 as stated fails: a month with value 5 and volume 0 gets the average
    infinity, not an undefined marker. *)
Lemma zero_volume_gives_infinity :
  create_features [mkEntry (first_of_month 2021 2) 2021 2 0 5]
  = mkIo [FeaturesBanner]
         (Return [mkFeatured (first_of_month 2021 2) 2021 2 0 5 infinity nan])
  /\ Np.isnan infinity = false.
Proof. split; reflexivity. Qed.

(** ** The order of Timestamps *)

Lemma Ts_ltb_spec (a b : Timestamp) : Ts.ltb a b = true <-> lex_lt a b.
Proof.
  unfold Ts.ltb, lex_lt.
  rewrite !orb_true_iff, !andb_true_iff, !orb_true_iff, !andb_true_iff,
    !Z.ltb_lt, !Z.eqb_eq.
  tauto.
Qed.

Lemma Ts_eqb_spec (a b : Timestamp) : Ts.eqb a b = true <-> a = b.
Proof.
  unfold Ts.eqb. rewrite !andb_true_iff, !Z.eqb_eq.
  destruct a, b; simpl. split.
  - intros [[-> ->] ->]. reflexivity.
  - intros [= -> -> ->]. auto.
Qed.

Lemma Ts_leb_spec (a b : Timestamp) : Ts.leb a b = true <-> lex_lt a b \/ a = b.
Proof.
  unfold Ts.leb. now rewrite orb_true_iff, Ts_ltb_spec, Ts_eqb_spec.
Qed.

Lemma lex_lt_trans a b c : lex_lt a b -> lex_lt b c -> lex_lt a c.
Proof. unfold lex_lt. lia. Qed.

Lemma lex_lt_irrefl a : ~ lex_lt a a.
Proof. unfold lex_lt. lia. Qed.

Lemma lex_total a b : lex_lt a b \/ a = b \/ lex_lt b a.
Proof.
  destruct a as [ya ma da], b as [yb mb db]. unfold lex_lt; simpl.
  destruct (Z.lt_total ya yb) as [H|[->|H]]; [auto| |auto].
  destruct (Z.lt_total ma mb) as [H|[->|H]]; [auto| |auto 6].
  destruct (Z.lt_total da db) as [H|[->|H]]; auto 8.
Qed.

Lemma leb_false_lt a b : Ts.leb a b = false -> lex_lt b a.
Proof.
  intros H. destruct (lex_total a b) as [L|[E|L]]; [| |exact L].
  - assert (Ts.leb a b = true) by (apply Ts_leb_spec; auto). congruence.
  - assert (Ts.leb a b = true) by (apply Ts_leb_spec; auto). congruence.
Qed.

Lemma at_most_trans a b c : at_most a b -> at_most b c -> at_most a c.
Proof.
  unfold at_most. rewrite !Ts_leb_spec.
  intros [H1| ->] [H2| ->]; eauto using lex_lt_trans.
Qed.

(** ** Sorting, distinct values and the maximum *)

Section SortValues.

Context {A : Type} (key : A -> Timestamp).

Lemma insert_perm x l : Permutation (x :: l) (Ord.insert key x l).
Proof.
  induction l as [|y l IH]; simpl; [auto|].
  destruct (Ts.leb (key x) (key y)); [auto|].
  rewrite perm_swap. now constructor.
Qed.

Lemma sort_values_perm l : Permutation l (Ord.sort_values key l).
Proof.
  induction l as [|x l IH]; simpl; [auto|].
  rewrite <- insert_perm. now constructor.
Qed.

Lemma insert_sorted x l :
  sorted_by_key key l -> sorted_by_key key (Ord.insert key x l).
Proof.
  unfold sorted_by_key. induction l as [|y l IH]; simpl; intros H.
  - repeat constructor.
  - inversion H as [|? ? Hl Hy]; subst.
    destruct (Ts.leb (key x) (key y)) eqn:E.
    + constructor; [exact H|]. constructor; [exact E|].
      eapply Forall_impl; [|exact Hy]. intros z Hz.
      eapply at_most_trans; eauto.
    + constructor; [auto|].
      apply leb_false_lt in E.
      rewrite Forall_forall in *. intros z Hz.
      apply (Permutation_in _ (Permutation_sym (insert_perm x l))) in Hz.
      destruct Hz as [<-|Hz]; [|auto].
      apply Ts_leb_spec. auto.
Qed.

Lemma sort_values_sorted l : sorted_by_key key (Ord.sort_values key l).
Proof.
  induction l as [|x l IH]; simpl; [constructor | now apply insert_sorted].
Qed.

End SortValues.

Lemma unique_In d l : In d (Ord.unique l) <-> In d l.
Proof.
  induction l as [|x l IH]; simpl; [tauto|].
  rewrite filter_In, IH, negb_true_iff.
  split.
  - tauto.
  - intros [->|H]; [auto|].
    destruct (Ts.eqb x d) eqn:E; [apply Ts_eqb_spec in E; auto | auto].
Qed.

Lemma unique_NoDup l : NoDup (Ord.unique l).
Proof.
  induction l as [|x l IH]; simpl; constructor.
  - rewrite filter_In, negb_true_iff. intros [_ H].
    assert (Ts.eqb x x = true) by now apply Ts_eqb_spec. congruence.
  - now apply NoDup_filter.
Qed.

(** A sorted list without repetition is strictly ascending. *)
Lemma sorted_NoDup_ascending l :
  sorted_by_key (fun d => d) l -> NoDup l -> ascending l.
Proof.
  unfold sorted_by_key, ascending.
  induction l as [|x l IH]; intros Hs Hn; [constructor|].
  inversion Hs as [|? ? Hl Hx]; inversion Hn as [|? ? Hnx Hnl]; subst.
  constructor; [auto|].
  rewrite Forall_forall in *. intros y Hy.
  apply Ts_ltb_spec. destruct (proj1 (Ts_leb_spec x y) (Hx y Hy)) as [H| ->];
    [exact H | contradiction].
Qed.

Lemma later_at_most a b : at_most a (Ord.later a b) /\ at_most b (Ord.later a b).
Proof.
  unfold Ord.later, at_most. destruct (Ts.ltb a b) eqn:E.
  - split; apply Ts_leb_spec; [left; now apply Ts_ltb_spec | auto].
  - split; [apply Ts_leb_spec; auto|].
    destruct (lex_total a b) as [L|[->|L]]; apply Ts_leb_spec; auto.
    apply Ts_ltb_spec in L. congruence.
Qed.

Lemma max_spec l d0 :
  In (Ord.max d0 l) (d0 :: l)
  /\ Forall (fun d => at_most d (Ord.max d0 l)) (d0 :: l).
Proof.
  unfold Ord.max. revert d0. induction l as [|x l IH]; intros d0; simpl.
  - split; [auto|]. constructor; [apply Ts_leb_spec; auto | constructor].
  - destruct (IH (Ord.later d0 x)) as [Hin Hall].
    inversion Hall as [|? ? Hd Hl]; subst.
    destruct (later_at_most d0 x) as [H0 Hx].
    split.
    + destruct Hin as [Hin|Hin]; [|right; right; exact Hin].
      rewrite <- Hin. unfold Ord.later.
      destruct (Ts.ltb d0 x); [right; left | left]; reflexivity.
    + constructor; [eapply at_most_trans; eauto|].
      constructor; [eapply at_most_trans; eauto | exact Hl].
Qed.

(** ** Month starts *)

Lemma month_start_index k : Ts.month_index (Ts.month_start k) = k.
Proof.
  unfold Ts.month_index, Ts.month_start; simpl.
  Z.div_mod_to_equations. lia.
Qed.

Lemma month_start_is_month_start k : Ts.is_month_start (Ts.month_start k) = true.
Proof.
  unfold Ts.is_month_start, Ts.month_start; simpl.
  rewrite !andb_true_iff, !Z.leb_le. Z.div_mod_to_equations. lia.
Qed.

Lemma is_month_start_inv d :
  Ts.is_month_start d = true -> Ts.month_start (Ts.month_index d) = d.
Proof.
  unfold Ts.is_month_start, Ts.month_start, Ts.month_index.
  rewrite !andb_true_iff, !Z.leb_le, Z.eqb_eq.
  destruct d as [y m d]; simpl. intros [[-> H1] H2].
  f_equal; Z.div_mod_to_equations; lia.
Qed.

Lemma month_start_lt p q : lex_lt (Ts.month_start p) (Ts.month_start q) <-> (p < q)%Z.
Proof.
  unfold lex_lt, Ts.month_start; simpl. Z.div_mod_to_equations. lia.
Qed.

Lemma filter_seq_after (last : Timestamp) (n : nat) :
  Ts.is_month_start last = true ->
  filter (fun d => Ts.ltb last d)
         (map (fun i => Ts.month_start (Ts.month_index last + Z.of_nat i)) (seq 0 (S n)))
  = months_after last n.
Proof.
  intros H. unfold months_after. simpl.
  rewrite Z.add_0_r, (is_month_start_inv _ H).
  assert (Ts.ltb last last = false) as ->.
  { destruct (Ts.ltb last last) eqn:E; [|reflexivity].
    apply Ts_ltb_spec in E. now apply lex_lt_irrefl in E. }
  apply forallb_filter_id. apply forallb_forall. intros d Hd.
  apply in_map_iff in Hd as (i & <- & Hi). apply in_seq in Hi.
  apply Ts_ltb_spec. rewrite <- (is_month_start_inv _ H) at 1.
  apply month_start_lt. lia.
Qed.

Lemma months_after_length d n : length (months_after d n) = n.
Proof. unfold months_after. now rewrite length_map, length_seq. Qed.

Lemma months_after_nth_error d n i :
  (i < n)%nat ->
  nth_error (months_after d n) i
  = Some (Ts.month_start (Ts.month_index d + Z.of_nat (S i))).
Proof.
  intros H. unfold months_after.
  rewrite nth_error_map, nth_error_seq.
  apply Nat.ltb_lt in H as ->. reflexivity.
Qed.

Lemma months_after_ascending d n : ascending (months_after d n).
Proof.
  unfold months_after, ascending. generalize 1%nat as s.
  induction n as [|n IH]; intros s; simpl; constructor; [apply IH|].
  apply Forall_forall. intros x Hx.
  apply in_map_iff in Hx as (i & <- & Hi). apply in_seq in Hi.
  apply Ts_ltb_spec, month_start_lt. lia.
Qed.

Section Grid.

Context {core : Prophet.Core}.

(** What [date_range] yields from a month start inside the range. *)
Lemma date_range_MS_month_start last n dates :
  Ts.is_month_start last = true ->
  Prophet.date_range_MS last (S n) = Return dates ->
  filter (fun d => Ts.ltb last d) dates = months_after last n.
Proof.
  intros H. unfold Prophet.date_range_MS. rewrite H.
  destruct (Ts.in_bounds _ || _); [|discriminate].
  intros [= <-]. now apply filter_seq_after.
Qed.

Lemma make_future_dataframe_inv (m : Prophet.Model) n grid :
  month_starts (Prophet.history_dates m) ->
  Prophet.make_future_dataframe m n = Return grid ->
  exists d0 rest,
    Prophet.history_dates m = d0 :: rest
    /\ grid = Prophet.history_dates m ++ months_after (Ord.max d0 rest) n.
Proof.
  intros Hms. unfold Prophet.make_future_dataframe.
  destruct (Prophet.history_dates m) as [|d0 rest] eqn:E; [discriminate|].
  intros H. apply bind_Return in H as (dates & Hd & [= <-]).
  exists d0, rest. split; [reflexivity|].
  assert (Hlast : Ts.is_month_start (Ord.max d0 rest) = true).
  { destruct (max_spec rest d0) as [Hin _].
    unfold month_starts in Hms. rewrite Forall_forall in Hms. auto. }
  replace (n + 1)%nat with (S n) in Hd by lia.
  rewrite (@date_range_MS_month_start _ _ _ Hlast Hd).
  rewrite firstn_all2 by (now rewrite months_after_length).
  reflexivity.
Qed.

Lemma fit_history_dates cfg0 df (m : Prophet.Model) :
  Prophet.fit cfg0 df = Return m ->
  Prophet.history_dates m = Ord.sort_values (fun d => d) (Ord.unique (map fst df)).
Proof.
  unfold Prophet.fit.
  destruct (length _ <? 2)%nat; [discriminate|].
  destruct (existsb _ _); [discriminate|].
  now intros [= <-].
Qed.

End Grid.

Lemma ascending_app l1 l2 :
  ascending l1 -> ascending l2 ->
  (forall a b, In a l1 -> In b l2 -> before a b) ->
  ascending (l1 ++ l2).
Proof.
  unfold ascending. induction l1 as [|x l1 IH]; simpl; intros H1 H2 H; [exact H2|].
  inversion H1 as [|? ? Hl Hx]; subst.
  constructor; [apply IH; auto|].
  apply Forall_app. split; [exact Hx|].
  apply Forall_forall. intros b Hb. apply H; auto.
Qed.

Lemma ascending_NoDup l : ascending l -> NoDup l.
Proof.
  unfold ascending. induction 1 as [|x l Hl IH Hx]; constructor; [|exact IH].
  intros Hin. rewrite Forall_forall in Hx. specialize (Hx x Hin).
  apply Ts_ltb_spec in Hx. now apply lex_lt_irrefl in Hx.
Qed.

Lemma ascending_app_inv l a x :
  ascending (l ++ [a]) -> In x (l ++ [a]) ->
  Forall (fun d => at_most d x) (l ++ [a]) ->
  x = a.
Proof.
  intros Hs Hin Hmax. apply in_app_or in Hin as [Hin|[<-|[]]]; [|reflexivity].
  exfalso.
  assert (Hxa : before x a).
  { clear Hmax. unfold ascending in Hs. induction l as [|y l IH]; [destruct Hin|].
    simpl in Hs. inversion Hs as [|? ? Hl Hy]; subst.
    destruct Hin as [<-|Hin]; [|auto].
    rewrite Forall_forall in Hy. apply Hy, in_or_app. right. now left. }
  rewrite Forall_forall in Hmax.
  assert (Hax : at_most a x) by (apply Hmax, in_or_app; right; now left).
  apply Ts_ltb_spec in Hxa. apply Ts_leb_spec in Hax as [Hax| ->].
  - eapply lex_lt_irrefl, lex_lt_trans; eauto.
  - now apply lex_lt_irrefl in Hxa.
Qed.

Lemma monthly_steps_app l a r :
  monthly_steps (l ++ [a]) -> monthly_steps (a :: r) ->
  monthly_steps (l ++ a :: r).
Proof.
  unfold monthly_steps. intros Hl Hr i x y Hx Hy.
  destruct (Nat.lt_ge_cases i (length l)) as [Hi|Hi].
  - apply (Hl i).
    + rewrite nth_error_app1 in * by lia. exact Hx.
    + destruct (Nat.eq_dec (S i) (length l)) as [E|E].
      * rewrite nth_error_app2 in * by lia.
        rewrite E, Nat.sub_diag in *. exact Hy.
      * rewrite nth_error_app1 in * by lia. exact Hy.
  - apply (Hr (i - length l)%nat).
    + rewrite nth_error_app2 in Hx by lia. exact Hx.
    + rewrite nth_error_app2 in Hy by lia.
      now replace (S i - length l)%nat with (S (i - length l)) in Hy by lia.
Qed.

Lemma monthly_steps_months_after d n :
  Ts.is_month_start d = true -> monthly_steps (d :: months_after d n).
Proof.
  intros Hd i a b Ha Hb.
  assert (Hi : (i < n)%nat).
  { assert (nth_error (d :: months_after d n) (S i) <> None) by congruence.
    apply nth_error_Some in H. simpl in H. rewrite months_after_length in H. lia. }
  simpl in Hb. rewrite (months_after_nth_error _ Hi) in Hb. injection Hb as <-.
  rewrite month_start_index.
  destruct i as [|i]; simpl in Ha.
  - injection Ha as <-. lia.
  - rewrite months_after_nth_error in Ha by lia. injection Ha as <-.
    rewrite month_start_index. lia.
Qed.

Lemma unique_NoDup_id l : NoDup l -> Ord.unique l = l.
Proof.
  induction 1 as [|x l Hx Hl IH]; simpl; [reflexivity|].
  rewrite IH. f_equal. apply forallb_filter_id. apply forallb_forall.
  intros y Hy. apply negb_true_iff.
  destruct (Ts.eqb x y) eqn:E; [|reflexivity].
  apply Ts_eqb_spec in E. subst. contradiction.
Qed.

(** ** Claim on the full-horizon grid *)

(** C8, as the code has it. When the forecast reaches its grid, the grid
    is the distinct historical periods in ascending order followed by the
    24 month starts after the last of them.  Its length is the number of
    distinct historical periods plus 24, which is the number of rows plus
    24 when no period repeats; it is strictly ascending, so it holds no
    duplicate; its dates are month starts; from the last historical period
    on, each date is exactly one month after the one before, and so is the
    whole grid whenever the historical periods are consecutive months. *)
Theorem full_horizon_grid
  {core : Prophet.Core} (df : list Featured) (grid : list Timestamp) :
  month_starts (map f_Date df) ->
  future df = Return grid ->
  let history := Ord.sort_values (fun d => d) (Ord.unique (map f_Date df)) in
  exists last,
    In last (map f_Date df)
    /\ Forall (fun d => at_most d last) (map f_Date df)
    /\ grid = history ++ months_after last 24
    /\ length grid = (length (Ord.unique (map f_Date df)) + 24)%nat
    /\ (NoDup (map f_Date df) -> length grid = (length df + 24)%nat)
    /\ ascending grid
    /\ NoDup grid
    /\ month_starts grid
    /\ monthly_steps (last :: months_after last 24)
    /\ (monthly_steps history -> monthly_steps grid).
Proof.
  intros Hms Hf history.
  unfold future in Hf. apply bind_Return in Hf as (m & Hm & Hg).
  pose proof (fit_history_dates _ _ Hm) as Hh.
  unfold prophet_df in Hh. rewrite map_map in Hh. simpl in Hh.
  change (map (fun r => f_Date r) df) with (map f_Date df) in Hh.
  fold history in Hh.
  assert (Hperm : Permutation (Ord.unique (map f_Date df)) history)
    by apply sort_values_perm.
  assert (Hin_hist : forall d, In d history <-> In d (map f_Date df)).
  { intros d. rewrite <- (unique_In d (map f_Date df)).
    split; apply Permutation_in;
      [apply Permutation_sym|]; exact Hperm. }
  assert (Hms' : month_starts history).
  { unfold month_starts in *. rewrite Forall_forall in *.
    intros d Hd. apply Hms, Hin_hist, Hd. }
  assert (Hasc : ascending history).
  { apply sorted_NoDup_ascending; [apply sort_values_sorted|].
    eapply Permutation_NoDup; [exact Hperm | apply unique_NoDup]. }
  rewrite <- Hh in Hms'.
  destruct (make_future_dataframe_inv _ _ Hms' Hg) as (d0 & rest & E & ->).
  rewrite Hh in *. clear Hms' Hg Hm.
  destruct (max_spec rest d0) as [Hin Hall].
  set (last := Ord.max d0 rest) in *. rewrite <- E in Hin, Hall.
  assert (Hlast : Ts.is_month_start last = true).
  { unfold month_starts in Hms. rewrite Forall_forall in Hms.
    apply Hms, Hin_hist, Hin. }
  assert (Hlen : length (history ++ months_after last 24)
                 = (length (Ord.unique (map f_Date df)) + 24)%nat).
  { rewrite length_app, months_after_length.
    now rewrite (Permutation_length Hperm). }
  assert (Hgrid : ascending (history ++ months_after last 24)).
  { apply ascending_app; [exact Hasc | apply months_after_ascending|].
    intros a b Ha Hb. rewrite Forall_forall in Hall.
    apply Ts_ltb_spec. apply in_map_iff in Hb as (i & <- & Hi). apply in_seq in Hi.
    assert (Hlb : lex_lt last (Ts.month_start (Ts.month_index last + Z.of_nat i))).
    { rewrite <- (is_month_start_inv _ Hlast) at 1. apply month_start_lt. lia. }
    destruct (proj1 (Ts_leb_spec a last) (Hall a Ha)) as [H| ->];
      [eapply lex_lt_trans; eauto | exact Hlb]. }
  exists last. repeat split.
  - apply Hin_hist, Hin.
  - rewrite Forall_forall in *. intros d Hd. apply Hall, Hin_hist, Hd.
  - exact Hlen.
  - intros Hnd. rewrite Hlen, (unique_NoDup_id Hnd). now rewrite length_map.
  - exact Hgrid.
  - apply ascending_NoDup, Hgrid.
  - apply Forall_app. split.
    + unfold month_starts in Hms. rewrite Forall_forall in *.
      intros d Hd. apply Hms, Hin_hist, Hd.
    + apply Forall_forall. intros d Hd.
      apply in_map_iff in Hd as (i & <- & _). apply month_start_is_month_start.
  - now apply monthly_steps_months_after.
  - intros Hsteps.
    assert (Hne : history <> []) by (rewrite E; discriminate).
    destruct (exists_last Hne) as (l & a & El).
    rewrite El in *.
    assert (last = a) as -> by (eapply ascending_app_inv; eauto).
    rewrite <- app_assoc. simpl.
    apply monthly_steps_app; [exact Hsteps|].
    now apply monthly_steps_months_after.
Qed.


Lemma full_horizon_grid_witness :
  month_starts (map f_Date fourteen_featured)
  /\ exists grid,
       future (core := last_value) fourteen_featured = Return grid
       /\ length grid = 38%nat
       /\ ascending grid
       /\ monthly_steps grid.
Proof.
  assert (Hms : month_starts (map f_Date fourteen_featured))
    by (repeat constructor).
  split; [exact Hms|].
  eexists. split; [vm_compute; reflexivity|].
  match goal with
  | |- length ?g = _ /\ _ =>
      assert (Hf : future (core := last_value) fourteen_featured = Return g)
        by (vm_compute; reflexivity);
      destruct (@full_horizon_grid last_value fourteen_featured g Hms Hf)
        as (last & _ & _ & Hg & _ & _ & Hasc & _ & _ & _ & Hsteps)
  end.
  split; [reflexivity|]. split; [exact Hasc|].
  apply Hsteps.
  intros i a b Ha Hb.
  do 13 (destruct i as [|i]; [vm_compute in Ha, Hb; injection Ha as <-;
                              injection Hb as <-; reflexivity|]).
  vm_compute in Hb. destruct i; discriminate.
Defined.

(** C8 as stated fails: on fourteen rows that skip June 2021 the grid
    steps from May to July. *)
Lemma grid_keeps_the_gaps_of_history :
  length gap_featured = 14%nat
  /\ month_starts (map f_Date gap_featured)
  /\ exists grid,
       future (core := last_value) gap_featured = Return grid
       /\ nth_error grid 4 = Some (first_of_month 2021 5)
       /\ nth_error grid 5 = Some (first_of_month 2021 7).
Proof.
  split; [reflexivity|]. split; [repeat constructor|].
  eexists. split; [vm_compute; reflexivity|].
  split; reflexivity.
Qed.

(** ** Claims on the evaluation split *)

Section Evaluation.

Context {core : Prophet.Core}.

Lemma prophet_df_length (df : list Featured) : length (prophet_df df) = length df.
Proof. apply length_map. Qed.

Lemma test_dates (df : list Featured) :
  map fst (test df) = map f_Date (skipn (length df - 12) df).
Proof.
  unfold test, Pd.iloc_from_neg, prophet_df.
  now rewrite length_map, skipn_map, map_map.
Qed.

(** Prophet refuses a frame of fewer than two rows. *)
Lemma fit_too_short cfg0 (df : list (Timestamp * float)) :
  (length df < 2)%nat -> Prophet.fit cfg0 df = Raise ValueError.
Proof.
  intros H. unfold Prophet.fit.
  pose proof (filter_length_le (fun r => Pd.notna (snd r)) df) as Hle.
  destruct (Nat.ltb_spec (length (filter (fun r => Pd.notna (snd r)) df)) 2);
    [reflexivity | lia].
Qed.

Lemma train_length (df : list Featured) : length (train df) = (length df - 12)%nat.
Proof.
  unfold train, Pd.iloc_upto_neg.
  rewrite length_firstn, prophet_df_length. lia.
Qed.

Lemma test_length (df : list Featured) : length (test df) = Nat.min 12 (length df).
Proof.
  unfold test, Pd.iloc_from_neg.
  rewrite length_skipn, prophet_df_length. lia.
Qed.

End Evaluation.

(** C2. The split cuts the frame by position into the rows before the last
    twelve and the last twelve.  A frame of twelve rows or fewer (of
    thirteen, even) leaves a training frame that Prophet refuses: the
    function ends with a ValueError right after its banner, with no metric
    printed and no forecast returned. *)
Theorem evaluation_split {core : Prophet.Core} (df : list Featured) :
  let N := length df in
  train df = firstn (N - 12) (prophet_df df)
  /\ test df = skipn (N - 12) (prophet_df df)
  /\ train df ++ test df = prophet_df df
  /\ length (train df) = (N - 12)%nat
  /\ length (test df) = Nat.min 12 N
  /\ ((N <= 13)%nat ->
      forecast_transactions df = mkIo [ForecastBanner] (Raise ValueError)).
Proof.
  intros N. subst N.
  split; [|split; [|split; [|split; [|split]]]].
  - unfold train, Pd.iloc_upto_neg. now rewrite prophet_df_length.
  - unfold test, Pd.iloc_from_neg. now rewrite prophet_df_length.
  - unfold train, test, Pd.iloc_upto_neg, Pd.iloc_from_neg. apply firstn_skipn.
  - apply train_length.
  - apply test_length.
  - intros H. unfold forecast_transactions, test_forecast, evaluation_model.
    rewrite fit_too_short by (rewrite train_length; lia).
    reflexivity.
Qed.

Lemma evaluation_split_witness :
  forecast_transactions (core := last_value) twelve_featured
  = mkIo [ForecastBanner] (Raise ValueError)
  /\ length (train twelve_featured) = 0%nat
  /\ length (test twelve_featured) = 12%nat.
Proof.
  destruct (@evaluation_split last_value twelve_featured)
    as (_ & _ & _ & Htrain & Htest & Hfail).
  split; [apply Hfail; vm_compute; lia | split; [exact Htrain | exact Htest]].
Defined.

(** On fourteen months the function runs to its end: it prints the two
    metrics and returns a forecast for 14 + 24 periods. *)
Lemma forecast_of_fourteen_months :
  exists rmse final_forecast,
    forecast_transactions (core := last_value) fourteen_featured
    = mkIo [ForecastBanner; EvaluationBanner; MaeLine 65; RmseLine rmse]
           (Return final_forecast)
    /\ length final_forecast = 38%nat.
Proof.
  eexists. eexists. split; [vm_compute; reflexivity | reflexivity].
Qed.

(** C1. The evaluation model is fitted on the training prefix and the
    forecast request carries the dates of the holdout and nothing else.
    Hence two frames with the same training prefix and the same holdout
    dates get the same evaluation model and the same forecast of the
    holdout, whatever their holdout volumes. *)
Theorem evaluation_is_leakage_free {core : Prophet.Core} (df1 df2 : list Featured) :
  firstn (length df1 - 12) (prophet_df df1)
  = firstn (length df2 - 12) (prophet_df df2) ->
  map f_Date (skipn (length df1 - 12) df1)
  = map f_Date (skipn (length df2 - 12) df2) ->
  evaluation_model df1
  = Prophet.fit cfg (firstn (length df1 - 12) (prophet_df df1))
  /\ test_forecast df1
     = (m <- evaluation_model df1 ;;
        Prophet.predict m (map f_Date (skipn (length df1 - 12) df1)))
  /\ evaluation_model df1 = evaluation_model df2
  /\ test_forecast df1 = test_forecast df2.
Proof.
  intros Htrain Hdates.
  assert (Hm : forall df, evaluation_model df
               = Prophet.fit cfg (firstn (length df - 12) (prophet_df df))).
  { intros df. unfold evaluation_model, train, Pd.iloc_upto_neg.
    now rewrite prophet_df_length. }
  assert (Hf : forall df, test_forecast df
               = (m <- evaluation_model df ;;
                  Prophet.predict m (map f_Date (skipn (length df - 12) df)))).
  { intros df. unfold test_forecast. now rewrite test_dates. }
  assert (Heq : evaluation_model df1 = evaluation_model df2)
    by (now rewrite !Hm, Htrain).
  repeat split; auto.
  now rewrite !Hf, Heq, Hdates.
Qed.

Lemma evaluation_is_leakage_free_witness :
  test_forecast (core := last_value) fourteen_featured
  = test_forecast (core := last_value) fourteen_other
  /\ (exists forecast,
        test_forecast (core := last_value) fourteen_featured = Return forecast
        /\ length forecast = 12%nat)
  /\ nth 13 (map f_TransactionVolume_Cr fourteen_featured) nan = 230%float
  /\ nth 13 (map f_TransactionVolume_Cr fourteen_other) nan = 999%float.
Proof.
  split.
  - apply (@evaluation_is_leakage_free last_value fourteen_featured fourteen_other);
      reflexivity.
  - split; [eexists; split; vm_compute; reflexivity|].
    split; reflexivity.
Defined.

(** ** Signs of binary64 results *)

(** The rounding of the specification keeps the sign it is given: from a
    non-negative mantissa it builds a zero, a finite number or an infinity
    of that sign, never a NaN. *)
Section Rounding.
Variables prec emax : Z.

Lemma shr_1_nonneg mrs : (0 <= shr_m mrs)%Z -> (0 <= shr_m (shr_1 mrs))%Z.
Proof.
  destruct mrs as [m r s]. simpl. destruct m as [|p|p]; [simpl; lia| |lia].
  intros _. destruct p; simpl; lia.
Qed.

Lemma iter_shr_1_nonneg p mrs :
  (0 <= shr_m mrs)%Z -> (0 <= shr_m (SpecFloat.iter_pos shr_1 p mrs))%Z.
Proof.
  revert mrs. induction p as [p IH|p IH|]; intros mrs H; simpl.
  - apply IH, IH, shr_1_nonneg, H.
  - apply IH, IH, H.
  - apply shr_1_nonneg, H.
Qed.

Lemma shr_fexp_nonneg m e l :
  (0 <= m)%Z -> (0 <= shr_m (fst (shr_fexp prec emax m e l)))%Z.
Proof.
  intros H. unfold shr_fexp, shr.
  assert (H0 : (0 <= shr_m (shr_record_of_loc m l))%Z)
    by (destruct l as [|[]]; exact H).
  destruct (_ - e)%Z; simpl; [exact H0 | now apply iter_shr_1_nonneg | exact H0].
Qed.

Lemma round_nearest_even_nonneg m l : (0 <= m)%Z -> (0 <= round_nearest_even m l)%Z.
Proof.
  intros H. unfold round_nearest_even.
  destruct l as [|[]]; [lia| |lia|lia]. destruct (Z.even m); lia.
Qed.

Lemma binary_round_aux_signed sx mx ex lx :
  (0 <= mx)%Z -> signed sx (binary_round_aux prec emax sx mx ex lx).
Proof.
  intros H. unfold binary_round_aux.
  pose proof (@shr_fexp_nonneg mx ex lx H) as H1.
  destruct (shr_fexp prec emax mx ex lx) as [mrs' e']. simpl in H1.
  pose proof (@shr_fexp_nonneg _ e' loc_Exact
                (@round_nearest_even_nonneg _ (loc_of_shr_record mrs') H1)) as H2.
  destruct (shr_fexp prec emax _ e' loc_Exact) as [mrs'' e'']. simpl in H2.
  destruct (shr_m mrs''); [reflexivity| |lia].
  destruct (e'' <=? emax - prec)%Z; reflexivity.
Qed.
End Rounding.

Section Signs.

Open Scope float_scope.

(** Closes a goal on the sign class of a rounded result, given that the
    mantissa is not negative. *)
Ltac by_rounding_sign s m e l :=
  let H := fresh "H" in
  assert (H : signed s (binary_round_aux prec emax s m e l))
    by (apply binary_round_aux_signed; first [assumption | lia]);
  destruct (binary_round_aux prec emax s m e l); simpl in H; tauto.

Lemma signed_not_nan s x : signed s x -> x <> S754_nan.
Proof. destruct x; simpl; congruence. Qed.

Lemma leb_zero_nonneg x : nonneg x -> (0 <=? x) = true.
Proof.
  unfold nonneg. rewrite FloatAxioms.leb_spec.
  change (Prim2SF 0) with (S754_zero false).
  destruct (Prim2SF x) as [s|s| |s m e]; simpl; try tauto; intros ->; reflexivity.
Qed.

Lemma isfinite_inv x :
  Np.isfinite x = true ->
  (exists s, Prim2SF x = S754_zero s) \/ (exists s m e, Prim2SF x = S754_finite s m e).
Proof.
  unfold Np.isfinite, Np.isnan, Np.isinf.
  rewrite !FloatAxioms.eqb_spec, FloatAxioms.abs_spec.
  change (Prim2SF infinity) with (S754_infinity false).
  destruct (Prim2SF x) as [s|s| |s m e].
  - eauto.
  - destruct s; discriminate.
  - discriminate.
  - eauto 6.
Qed.

Lemma sub_finite_not_nan x y :
  Np.isfinite x = true -> Np.isfinite y = true -> not_nan (x - y).
Proof.
  intros Hx Hy. unfold not_nan. rewrite FloatAxioms.sub_spec. unfold SF64sub.
  destruct (isfinite_inv _ Hx) as [[sx ->]|(sx & mx & ex & ->)];
    destruct (isfinite_inv _ Hy) as [[sy ->]|(sy & my & ey & ->)]; simpl;
    try discriminate.
  - destruct sx, sy; discriminate.
  - unfold binary_normalize.
    destruct (_ - _)%Z; [discriminate| |];
      unfold binary_round; destruct (shl_align _ _ _);
      eapply signed_not_nan, binary_round_aux_signed; lia.
Qed.

Lemma abs_nonneg d : not_nan d -> nonneg (abs d).
Proof.
  unfold not_nan, nonneg. rewrite FloatAxioms.abs_spec.
  destruct (Prim2SF d); simpl; auto.
Qed.

Lemma square_nonneg d : not_nan d -> nonneg (d * d).
Proof.
  unfold not_nan, nonneg. rewrite FloatAxioms.mul_spec. unfold SF64mul.
  destruct (Prim2SF d) as [s|s| |s m e]; simpl; auto using xorb_nilpotent.
  intros _.
  rewrite xorb_nilpotent.
  by_rounding_sign false (Z.pos (m * m)) (e + e)%Z loc_Exact.
Qed.

Lemma add_nonneg a b : nonneg a -> nonneg b -> nonneg (a + b).
Proof.
  unfold nonneg. rewrite FloatAxioms.add_spec. unfold SF64add.
  destruct (Prim2SF a) as [sa|sa| |sa ma ea];
    destruct (Prim2SF b) as [sb|sb| |sb mb eb]; simpl; try tauto.
  - destruct sa, sb; auto.
  - intros -> ->. reflexivity.
  - intros -> ->. simpl. unfold binary_normalize.
    destruct (shl_align ma ea (Z.min ea eb)) as [m1 e1].
    destruct (shl_align mb eb (Z.min ea eb)) as [m2 e2]. simpl.
    unfold binary_round. destruct (shl_align _ _ _).
    by_rounding_sign false (Z.pos p) z loc_Exact.
Qed.

Lemma total_nonneg (s : list float) :
  Forall nonneg s -> nonneg (Sk.total s).
Proof.
  unfold Sk.total. simpl.
  assert (H0 : nonneg 0) by exact I.
  revert H0. generalize 0 as acc.
  induction s as [|x s IH]; intros acc Hacc Hs; simpl; [exact Hacc|].
  inversion Hs; subst. apply IH; [apply add_nonneg|]; assumption.
Qed.

Lemma div_nonneg a c m e :
  nonneg a -> Prim2SF c = S754_finite false m e -> nonneg (a / c).
Proof.
  unfold nonneg. intros Ha Hc. rewrite FloatAxioms.div_spec, Hc. unfold SF64div.
  destruct (Prim2SF a) as [sa|sa| |sa ma ea]; simpl in *; try tauto.
  - now rewrite xorb_false_r.
  - subst sa. simpl.
    destruct (SFdiv_core_binary prec emax (Z.pos ma) ea (Z.pos m) e)
      as [[mz ez] lz] eqn:E.
    assert (Hmz : (0 <= mz)%Z).
    { unfold SFdiv_core_binary in E.
      destruct (Z.div_eucl _ (Z.pos m)) as [q r] eqn:Eq.
      injection E as <- _ _.
      match type of Eq with Z.div_eucl ?n _ = _ =>
        assert (Hn : (0 <= n)%Z) by (destruct (_ - _ - _)%Z; [lia| |lia];
                                       apply Z.shiftl_nonneg; lia);
        pose proof (Z_div_mod n (Z.pos m) ltac:(lia)) as Hd
      end.
      rewrite Eq in Hd. nia. }
    by_rounding_sign false mz ez lz.
Qed.

Lemma sqrt_nonneg a : nonneg a -> nonneg (PrimFloat.sqrt a).
Proof.
  unfold nonneg. rewrite FloatAxioms.sqrt_spec. unfold SF64sqrt, SFsqrt.
  destruct (Prim2SF a) as [sa|sa| |sa ma ea]; simpl; try tauto.
  - intros ->. reflexivity.
  - intros ->.
    destruct (SFsqrt_core_binary prec emax (Z.pos ma) ea) as [[mz ez] lz] eqn:E.
    assert (Hmz : (0 <= mz)%Z).
    { unfold SFsqrt_core_binary in E.
      destruct (Z.sqrtrem _) as [q r] eqn:Eq.
      injection E as <- _ _.
      match type of Eq with Z.sqrtrem ?n = _ =>
        pose proof (Z.sqrtrem_sqrt n) as Hs; rewrite Eq in Hs; simpl in Hs;
        rewrite Hs; apply Z.sqrt_nonneg
      end. }
    by_rounding_sign false mz ez lz.
Qed.

Lemma of_count_small n :
  (1 <= n <= 12)%nat -> exists m e, Prim2SF (of_count n) = S754_finite false m e.
Proof.
  intros H.
  do 13 (destruct n as [|n]; [try lia; vm_compute; eauto|]).
  lia.
Qed.

End Signs.

(** ** The two metrics *)

Section Checks.

Context {T : Type} {arith : Arith T}.

Lemma check_targets_inv (y_true y_pred : list T) u :
  Sk.check_targets y_true y_pred = Return u ->
  length y_true = length y_pred
  /\ length y_true <> 0%nat
  /\ forallb finite y_true = true
  /\ forallb finite y_pred = true.
Proof.
  unfold Sk.check_targets.
  destruct (Nat.eqb_spec (length y_true) (length y_pred)) as [E|]; simpl;
    [|discriminate].
  destruct (Nat.eqb_spec (length y_true) 0) as [|E0]; [discriminate|].
  destruct (forallb finite y_true); [|discriminate].
  destruct (forallb finite y_pred); [|discriminate].
  auto.
Qed.

Lemma mean_absolute_error_inv (y_true y_pred : list T) mae :
  Sk.mean_absolute_error y_true y_pred = Return mae ->
  Sk.check_targets y_true y_pred = Return tt
  /\ mae = Sk.average (map absolute (Pd.zip_with sub y_pred y_true)).
Proof.
  unfold Sk.mean_absolute_error. intros H.
  apply bind_Return in H as ([] & Hc & [= <-]). auto.
Qed.

Lemma root_mean_squared_error_inv (y_true y_pred : list T) rmse :
  Sk.root_mean_squared_error y_true y_pred = Return rmse ->
  Sk.check_targets y_true y_pred = Return tt
  /\ rmse = square_root
              (Sk.average (map (fun d => mul d d) (Pd.zip_with sub y_true y_pred))).
Proof.
  unfold Sk.root_mean_squared_error, Sk.mean_squared_error. intros H.
  apply bind_Return in H as (mse & Hm & [= <-]).
  apply bind_Return in Hm as ([] & Hc & [= <-]). auto.
Qed.

End Checks.

(** *** In doubles *)

Lemma differences_not_nan (s t : list float) :
  forallb Np.isfinite s = true -> forallb Np.isfinite t = true ->
  Forall not_nan (Pd.zip_with PrimFloat.sub s t).
Proof.
  revert t; induction s as [|x s IH]; intros [|y t] Hs Ht; simpl;
    try constructor.
  - apply andb_true_iff in Hs as [Hx _]. apply andb_true_iff in Ht as [Hy _].
    now apply sub_finite_not_nan.
  - apply andb_true_iff in Hs as [_ Hs]. apply andb_true_iff in Ht as [_ Ht].
    now apply IH.
Qed.

Lemma average_nonneg (s : list float) :
  (1 <= length s <= 12)%nat -> Forall nonneg s -> nonneg (Sk.average s).
Proof.
  intros Hlen Hs. unfold Sk.average.
  destruct (of_count_small Hlen) as (m & e & Hc).
  eapply div_nonneg; [now apply total_nonneg | exact Hc].
Qed.

(** On at most twelve samples, the metrics the scorer returns are doubles
    that are not negative and not NaN. *)
Lemma float_metrics_nonneg (y_true y_pred : list float) mae rmse :
  (length y_true <= 12)%nat ->
  Sk.mean_absolute_error y_true y_pred = Return mae ->
  Sk.root_mean_squared_error y_true y_pred = Return rmse ->
  (0 <=? mae)%float = true /\ (0 <=? rmse)%float = true.
Proof.
  intros Hlen Hmae Hrmse.
  apply mean_absolute_error_inv in Hmae as [Hc ->].
  apply root_mean_squared_error_inv in Hrmse as [_ ->].
  apply check_targets_inv in Hc as (Hl & Hn & Ht & Hp). simpl in Ht, Hp.
  split; apply leb_zero_nonneg.
  - apply average_nonneg.
    + rewrite length_map, zip_with_length. lia.
    + apply Forall_map. eapply Forall_impl; [apply abs_nonneg|].
      now apply differences_not_nan.
  - apply sqrt_nonneg, average_nonneg.
    + rewrite length_map, zip_with_length. lia.
    + apply Forall_map. eapply Forall_impl; [apply square_nonneg|].
      now apply differences_not_nan.
Qed.

(** *** In exact arithmetic *)

Section Exact.

Open Scope R_scope.

Lemma total_Rsum (l : list R) : Sk.total l = Rsum l.
Proof.
  unfold Sk.total. simpl.
  assert (H : forall acc, fold_left Rplus l acc = acc + Rsum l).
  { induction l as [|x l IH]; intros acc; simpl; [lra|]. rewrite IH. lra. }
  rewrite H. lra.
Qed.

Lemma Rsum_abs_nonneg (l : list R) : 0 <= Rsum (map Rabs l).
Proof.
  induction l as [|x l IH]; simpl; [lra|].
  pose proof (Rabs_pos x). lra.
Qed.

Lemma Rsum_squares_nonneg (l : list R) : 0 <= Rsum (map (fun d => d * d) l).
Proof.
  induction l as [|x l IH]; simpl; [lra|]. nra.
Qed.

(** Twice a product is at most the sum of the squares, summed over a list. *)
Lemma cross_term_bound (a : R) (l : list R) :
  2 * Rabs a * Rsum (map Rabs l)
  <= INR (length l) * (a * a) + Rsum (map (fun d => d * d) l).
Proof.
  induction l as [|x l IH]; [simpl; lra|].
  change (length (x :: l)) with (S (length l)). rewrite S_INR. simpl.
  assert (Hx : Rabs x * Rabs x = x * x)
    by (rewrite <- Rabs_mult; apply Rabs_pos_eq; nra).
  assert (Ha : Rabs a * Rabs a = a * a)
    by (rewrite <- Rabs_mult; apply Rabs_pos_eq; nra).
  assert (Hax : 2 * Rabs a * Rabs x <= a * a + x * x).
  { pose proof (Rle_0_sqr (Rabs a - Rabs x)) as Hsq. unfold Rsqr in Hsq. nra. }
  nra.
Qed.

(** The square of a sum of magnitudes against the sum of the squares. *)
Lemma sum_of_magnitudes_squared (l : list R) :
  Rsum (map Rabs l) * Rsum (map Rabs l)
  <= INR (length l) * Rsum (map (fun d => d * d) l).
Proof.
  induction l as [|x l IH]; [simpl; lra|].
  change (length (x :: l)) with (S (length l)). rewrite S_INR. simpl.
  pose proof (cross_term_bound x l) as Hc.
  pose proof (Rsum_squares_nonneg l) as Hq.
  assert (Hx : Rabs x * Rabs x = x * x)
    by (rewrite <- Rabs_mult; apply Rabs_pos_eq; nra).
  nra.
Qed.

Lemma differences_swap (s t : list R) :
  map Rabs (Pd.zip_with Rminus s t) = map Rabs (Pd.zip_with Rminus t s).
Proof.
  revert t; induction s as [|x s IH]; intros [|y t]; simpl; try reflexivity.
  rewrite IH. f_equal. apply Rabs_minus_sym.
Qed.

(** Over the reals the root of the mean square is at least the mean
    magnitude, for every pair of columns the scorer accepts. *)
Lemma exact_rmse_ge_mae (y_true y_pred : list R) mae rmse :
  Sk.mean_absolute_error y_true y_pred = Return mae ->
  Sk.root_mean_squared_error y_true y_pred = Return rmse ->
  0 <= mae /\ mae <= rmse.
Proof.
  intros Hmae Hrmse.
  apply mean_absolute_error_inv in Hmae as [Hc ->].
  apply root_mean_squared_error_inv in Hrmse as [_ ->].
  apply check_targets_inv in Hc as (Hl & Hn & _ & _).
  unfold Sk.average. simpl. rewrite !total_Rsum, !length_map.
  rewrite differences_swap.
  set (ds := Pd.zip_with Rminus y_true y_pred).
  assert (Hlen : length (Pd.zip_with Rminus y_pred y_true) = length ds)
    by (unfold ds; rewrite !zip_with_length; lia).
  rewrite Hlen.
  assert (Hpos : 0 < INR (length ds)).
  { apply lt_0_INR. unfold ds. rewrite zip_with_length. lia. }
  set (n := INR (length ds)) in *.
  pose proof (Rsum_abs_nonneg ds) as Hs.
  pose proof (sum_of_magnitudes_squared ds) as Hcs. fold n in Hcs.
  set (S := Rsum (map Rabs ds)) in *.
  set (Q := Rsum (map (fun d => d * d) ds)) in *.
  assert (Hinv : 0 < / n) by now apply Rinv_0_lt_compat.
  assert (Hn1 : n * / n = 1) by (apply Rinv_r; lra).
  assert (Hmae : 0 <= S / n) by (unfold Rdiv; nra).
  split; [exact Hmae|].
  rewrite <- (sqrt_square (S / n)) by exact Hmae.
  apply sqrt_le_1_alt.
  unfold Rdiv.
  replace (S * / n * (S * / n)) with ((S * S) * (/ n * / n)) by ring.
  replace (Q * / n) with ((n * Q) * (/ n * / n)).
  - apply Rmult_le_compat_r; [nra | exact Hcs].
  - transitivity (Q * / n * (n * / n)); [ring | rewrite Hn1; ring].
Qed.

End Exact.

(** ** Claim on the scorer *)

Lemma score_inv (df : list Featured) (forecast : list Prophet.Forecast) mae rmse :
  score df forecast = Return (mae, rmse) ->
  Sk.mean_absolute_error (map snd (test df)) (map Prophet.yhat forecast) = Return mae
  /\ Sk.root_mean_squared_error (map snd (test df)) (map Prophet.yhat forecast)
     = Return rmse.
Proof.
  unfold score. intros H.
  apply bind_Return in H as (mae' & Hm & H).
  apply bind_Return in H as (rmse' & Hr & [= <- <-]). auto.
Qed.

(** C9, as the code has it. The two metrics the scorer returns for a
    holdout are doubles that are at least zero.  Read over the real
    numbers, the same two formulas give RMSE >= MAE >= 0 for every pair of
    columns; in doubles the errors 1, ..., 1, 5 give MAE = 16/12 and
    RMSE = sqrt 3, which is larger. *)
Theorem scorer_metrics :
  (forall (df : list Featured) (forecast : list Prophet.Forecast) (mae rmse : float),
      score df forecast = Return (mae, rmse) ->
      (0 <=? mae)%float = true /\ (0 <=? rmse)%float = true)
  /\ (forall (y_true y_pred : list R) (mae rmse : R),
         Sk.mean_absolute_error y_true y_pred = Return mae ->
         Sk.root_mean_squared_error y_true y_pred = Return rmse ->
         (0 <= mae)%R /\ (mae <= rmse)%R)
  /\ Sk.mean_absolute_error actual_zeros off_by_ones_and_five
     = Return (16 / 12)%float
  /\ Sk.root_mean_squared_error actual_zeros off_by_ones_and_five
     = Return (PrimFloat.sqrt 3)
  /\ (16 / 12 <? PrimFloat.sqrt 3)%float = true.
Proof.
  split; [|split; [|repeat split]].
  - intros df forecast mae rmse H.
    apply score_inv in H as [Hm Hr].
    apply (@float_metrics_nonneg (map snd (test df))
             (map Prophet.yhat forecast)); [|exact Hm|exact Hr].
    rewrite length_map, test_length. lia.
  - intros y_true y_pred mae rmse. apply exact_rmse_ge_mae.
Qed.

Lemma scorer_metrics_witness :
  (exists forecast mae rmse,
      test_forecast (core := last_value) fourteen_featured = Return forecast
      /\ score fourteen_featured forecast = Return (mae, rmse)
      /\ (0 <=? mae)%float = true /\ (0 <=? rmse)%float = true)
  /\ Sk.root_mean_squared_error (T := R) [0; 0]%R [3; 4]%R
     = Return (sqrt ((0 + (0 - 3) * (0 - 3) + (0 - 4) * (0 - 4)) / INR 2))%R.
Proof.
  destruct scorer_metrics as (Hfloat & _).
  split.
  - eexists; eexists; eexists.
    split; [vm_compute; reflexivity|].
    match goal with
    | |- score ?d ?f = Return (?a, ?b) /\ _ =>
        assert (Hs : score d f = Return (a, b)) by (vm_compute; reflexivity);
        split; [exact Hs | exact (Hfloat d f a b Hs)]
    end.
  - unfold Sk.root_mean_squared_error, Sk.mean_squared_error, Sk.check_targets.
    simpl. reflexivity.
Defined.

(** C9 as stated fails in doubles: errors of 2^-700 have squares that
    underflow to zero, so RMSE is 0 while MAE is 2^-700. *)
Lemma rmse_below_mae_on_tiny_errors :
  Sk.mean_absolute_error actual_tiny actual_zeros = Return 0x1p-700%float
  /\ Sk.root_mean_squared_error actual_tiny actual_zeros = Return 0%float
  /\ (0 <? 0x1p-700)%float = true
  /\ (0x1p-700 <=? 0)%float = false.
Proof. repeat split. Qed.

(** ** Where the derived columns are undefined *)

Section Undefined.

Open Scope float_scope.

Lemma nan_spec x : x = nan <-> Prim2SF x = S754_nan.
Proof.
  split; [intros ->; reflexivity|].
  intros H. apply Prim2SF_inj. now rewrite H.
Qed.

Lemma isnan_false_not_nan x : Np.isnan x = false <-> not_nan x.
Proof.
  unfold not_nan. rewrite <- nan_spec, <- isnan_spec.
  destruct (Np.isnan x); split; congruence.
Qed.

Lemma SFdiv_core_binary_nonneg m1 e1 m2 e2 mz ez lz :
  SFdiv_core_binary prec emax (Z.pos m1) e1 (Z.pos m2) e2 = (mz, ez, lz) ->
  (0 <= mz)%Z.
Proof.
  unfold SFdiv_core_binary. intros E.
  destruct (Z.div_eucl _ (Z.pos m2)) as [q r] eqn:Eq.
  injection E as <- _ _.
  match type of Eq with Z.div_eucl ?n _ = _ =>
    assert (Hn : (0 <= n)%Z) by (destruct (_ - _ - _)%Z; [lia| |lia];
                                   apply Z.shiftl_nonneg; lia);
    pose proof (Z_div_mod n (Z.pos m2) ltac:(lia)) as Hd
  end.
  rewrite Eq in Hd. nia.
Qed.

(** A quotient of two numbers is NaN exactly for 0/0 and for an infinity
    over an infinity. *)
Lemma SFdiv_nan_iff x y :
  x <> S754_nan -> y <> S754_nan ->
  (SFdiv prec emax x y = S754_nan <->
   (exists s t, x = S754_zero s /\ y = S754_zero t)
   \/ (exists s t, x = S754_infinity s /\ y = S754_infinity t)).
Proof.
  intros Hx Hy.
  destruct x as [sx|sx| |sx mx ex]; destruct y as [sy|sy| |sy my ey];
    try congruence; simpl;
    try (split; [discriminate | intros [(s & t & H1 & H2)|(s & t & H1 & H2)];
                                discriminate]);
    try (split; [eauto | reflexivity]).
  destruct (SFdiv_core_binary prec emax (Z.pos mx) ex (Z.pos my) ey)
    as [[mz ez] lz] eqn:E.
  pose proof (binary_round_aux_signed prec emax (xorb sx sy) ez lz
                (SFdiv_core_binary_nonneg _ _ _ _ E)) as H.
  split.
  - intros Hn. rewrite Hn in H. destruct H.
  - intros [(s & t & H1 & H2)|(s & t & H1 & H2)]; discriminate.
Qed.

Lemma binary_normalize_not_nan m e sz : binary_normalize prec emax m e sz <> S754_nan.
Proof.
  unfold binary_normalize. destruct m; [discriminate| |];
    unfold binary_round; destruct (shl_align _ _ _);
    eapply signed_not_nan, binary_round_aux_signed; lia.
Qed.

Lemma SFadd_not_nan x y :
  x <> S754_nan -> finite_sf y -> SFadd prec emax x y <> S754_nan.
Proof.
  intros Hx Hy.
  destruct x as [sx|sx| |sx mx ex]; destruct y as [sy|sy| |sy my ey];
    try congruence; try destruct Hy; simpl; try discriminate.
  - destruct sx, sy; discriminate.
  - apply binary_normalize_not_nan.
Qed.

Lemma SFsub_not_nan x y :
  x <> S754_nan -> finite_sf y -> SFsub prec emax x y <> S754_nan.
Proof.
  intros Hx Hy.
  destruct x as [sx|sx| |sx mx ex]; destruct y as [sy|sy| |sy my ey];
    try congruence; try destruct Hy; simpl; try discriminate.
  - destruct sx, sy; discriminate.
  - apply binary_normalize_not_nan.
Qed.

Lemma SFmul_not_nan x s m e :
  x <> S754_nan -> SFmul prec emax x (S754_finite s m e) <> S754_nan.
Proof.
  intros Hx. destruct x as [sx|sx| |sx mx ex]; try congruence; simpl;
    try discriminate.
  eapply signed_not_nan, binary_round_aux_signed; lia.
Qed.

Lemma SFdiv_not_nan x s m e :
  x <> S754_nan -> SFdiv prec emax x (S754_finite s m e) <> S754_nan.
Proof.
  intros Hx Hn. apply SFdiv_nan_iff in Hn; [|exact Hx|discriminate].
  destruct Hn as [(s1 & t & _ & H)|(s1 & t & _ & H)]; discriminate.
Qed.

Lemma opp_not_nan x : not_nan x -> not_nan (- x).
Proof.
  unfold not_nan. rewrite FloatAxioms.opp_spec.
  destruct (Prim2SF x); simpl; congruence.
Qed.

Lemma add_two52_not_nan x : not_nan x -> not_nan (x + Np.two52).
Proof.
  unfold not_nan. rewrite FloatAxioms.add_spec. intros H.
  apply SFadd_not_nan; [exact H | exact I].
Qed.

Lemma sub_two52_not_nan x : not_nan x -> not_nan (x - Np.two52).
Proof.
  unfold not_nan. rewrite FloatAxioms.sub_spec. intros H.
  apply SFsub_not_nan; [exact H | exact I].
Qed.

Lemma rint_not_nan x : not_nan x -> not_nan (Np.rint x).
Proof.
  intros H. unfold Np.rint.
  destruct (abs x <? Np.two52); [|exact H].
  destruct (x =? 0); [exact H|].
  destruct (x <? 0).
  - apply opp_not_nan, sub_two52_not_nan, add_two52_not_nan, opp_not_nan, H.
  - apply sub_two52_not_nan, add_two52_not_nan, H.
Qed.

Lemma round2_not_nan x : not_nan x -> not_nan (Np.round2 x).
Proof.
  intros H. unfold Np.round2.
  assert (H100 : Prim2SF 100 = S754_finite false 7036874417766400 (-46))
    by reflexivity.
  assert (Hm : not_nan (x * 100)).
  { unfold not_nan. rewrite FloatAxioms.mul_spec, H100. now apply SFmul_not_nan. }
  apply rint_not_nan in Hm.
  unfold not_nan. rewrite FloatAxioms.div_spec, H100. now apply SFdiv_not_nan.
Qed.

(** Rounding to two decimals gives NaN for NaN only. *)
Lemma round2_nan_iff x : Np.round2 x = nan <-> x = nan.
Proof.
  split; [|intros ->; reflexivity].
  intros H. destruct (Np.isnan x) eqn:E; [now apply isnan_spec|].
  apply isnan_false_not_nan, round2_not_nan in E.
  apply nan_spec in H. contradiction.
Qed.

Lemma growth_pct_nan_iff v w : growth_pct v w = nan <-> (v / w) = nan.
Proof.
  unfold growth_pct. rewrite round2_nan_iff.
  split; [|intros ->; reflexivity].
  intros H. destruct (Np.isnan (v / w)) eqn:E; [now apply isnan_spec|].
  apply isnan_false_not_nan in E. exfalso.
  assert (H1 : not_nan (v / w - 1)).
  { unfold not_nan. rewrite FloatAxioms.sub_spec.
    apply SFsub_not_nan; [exact E | exact I]. }
  assert (H2 : not_nan ((v / w - 1) * 100)).
  { unfold not_nan. rewrite FloatAxioms.mul_spec.
    change (Prim2SF 100) with (S754_finite false 7036874417766400 (-46)).
    now apply SFmul_not_nan. }
  apply nan_spec in H. contradiction.
Qed.

Lemma isinf_spec x : Np.isinf x = true <-> exists s, Prim2SF x = S754_infinity s.
Proof.
  unfold Np.isinf. rewrite FloatAxioms.eqb_spec, FloatAxioms.abs_spec.
  change (Prim2SF infinity) with (S754_infinity false).
  destruct (Prim2SF x) as [s|s| |s m e]; simpl; split;
    try discriminate; try (intros [s' H]; discriminate); eauto.
Qed.

Lemma usable_inv v : usable v = true -> exists s m e, Prim2SF v = S754_finite s m e.
Proof.
  unfold usable. rewrite andb_true_iff, negb_true_iff. intros [Hf Hz].
  destruct (isfinite_inv _ Hf) as [[s Hs]|H]; [|exact H].
  assert ((v =? 0) = true) by (apply eqb_zero_spec; eauto). congruence.
Qed.

Lemma usable_notna v : usable v = true -> Pd.notna v = true.
Proof.
  unfold usable, Np.isfinite, Pd.notna, Pd.isna.
  rewrite !andb_true_iff. tauto.
Qed.

Lemma div_usable_not_nan v w : usable v = true -> usable w = true -> v / w <> nan.
Proof.
  intros Hv Hw. rewrite nan_spec, FloatAxioms.div_spec.
  destruct (usable_inv _ Hv) as (s & m & e & ->).
  destruct (usable_inv _ Hw) as (s' & m' & e' & ->).
  apply SFdiv_not_nan. discriminate.
Qed.

(** The quotient of two non-missing numbers is NaN exactly when both are
    zero or both are infinite. *)
Lemma div_nan_iff x y :
  Np.isnan x = false -> Np.isnan y = false ->
  Np.isnan (x / y) = ((x =? 0) && (y =? 0)) || (Np.isinf x && Np.isinf y).
Proof.
  intros Hx Hy. apply isnan_false_not_nan in Hx, Hy. unfold not_nan in Hx, Hy.
  apply eq_true_iff_eq.
  rewrite isnan_spec, nan_spec, FloatAxioms.div_spec.
  unfold SF64div. rewrite (SFdiv_nan_iff Hx Hy).
  rewrite orb_true_iff, !andb_true_iff, !eqb_zero_spec, !isinf_spec.
  split.
  - intros [(s & t & H1 & H2)|(s & t & H1 & H2)]; eauto 8.
  - intros [[[s H1] [t H2]]|[[s H1] [t H2]]]; eauto 8.
Qed.

End Undefined.

(** The features, column by column and row by row. *)

Lemma YoY_column_at (df : list Entry) (t : nat) :
  forallb Pd.notna (map TransactionVolume_Cr df) = true ->
  (t < length df)%nat ->
  nth_error (YoY_column df) t
  = Some (if (t <? 12)%nat then nan
          else growth_pct (nth t (map TransactionVolume_Cr df) nan)
                          (nth (t - 12) (map TransactionVolume_Cr df) nan)).
Proof.
  intros Hna Ht.
  set (vols := map TransactionVolume_Cr df) in *.
  assert (Hlen : length vols = length df) by apply length_map.
  assert (Hv : nth_error vols t = Some (nth t vols nan))
    by (apply nth_error_nth'; lia).
  unfold YoY_column. fold vols.
  destruct (t <? 12)%nat eqn:E.
  - apply Nat.ltb_lt in E.
    assert (Hs : nth_error (Pd.shift 12 vols) t = Some nan)
      by (apply shift_nth_error_lt; lia).
    rewrite (@YoY_column_nth_error _ _ _ _ Hna Hv Hs).
    now rewrite growth_pct_nan.
  - apply Nat.ltb_ge in E.
    apply (@YoY_column_nth_error _ _ _ _ Hna Hv).
    rewrite shift_nth_error_ge by lia.
    apply nth_error_nth'. lia.
Qed.

Lemma Avg_column_rows (f : list Featured) :
  map AvgTransactionValue_Rs f = AvgTransactionValue_column (map original f) ->
  Forall (fun r => AvgTransactionValue_Rs r
                   = Np.round2 (f_TransactionValue_RsCr r / f_TransactionVolume_Cr r)%float)
         f.
Proof.
  unfold AvgTransactionValue_column, Pd.round2, Pd.div.
  rewrite !map_map. simpl.
  induction f as [|r f IH]; intros Ha; constructor.
  - simpl in Ha. now injection Ha.
  - apply IH. simpl in Ha. now injection Ha.
Qed.

(** X1. On volumes that are finite and not zero, the growth column is the
    undefined marker on the first twelve rows and on no other row. *)
Theorem yoy_undefined_exactly_in_first_year
  (df : list Entry) (f : list Featured) (t : nat) :
  features df f ->
  forallb (fun e => usable (TransactionVolume_Cr e)) df = true ->
  (t < length df)%nat ->
  Np.isnan (nth t (map YoY_Volume_Growth_pct f) 0%float) = (t <? 12)%nat.
Proof.
  intros Hf Hu Ht. apply features_columns in Hf as (_ & _ & ->).
  assert (Hvols : forallb usable (map TransactionVolume_Cr df) = true)
    by (now rewrite forallb_map_compose).
  assert (Hna : forallb Pd.notna (map TransactionVolume_Cr df) = true).
  { rewrite forallb_forall in *. intros v Hv. apply usable_notna. auto. }
  rewrite (nth_error_nth _ _ _ (YoY_column_at _ Hna Ht)).
  destruct (t <? 12)%nat eqn:E; [reflexivity|].
  apply Nat.ltb_ge in E.
  destruct (Np.isnan (growth_pct _ _)) eqn:En; [|reflexivity].
  exfalso. apply isnan_spec in En.
  apply (proj1 (growth_pct_nan_iff _ _)) in En.
  rewrite forallb_forall in Hvols.
  apply (@div_usable_not_nan (nth t (map TransactionVolume_Cr df) nan)
           (nth (t - 12) (map TransactionVolume_Cr df) nan));
    [| |exact En]; apply Hvols, nth_In; rewrite length_map; lia.
Qed.

Lemma yoy_undefined_exactly_in_first_year_witness :
  features fourteen_months fourteen_featured
  /\ Np.isnan (nth 11 (map YoY_Volume_Growth_pct fourteen_featured) 0%float) = true
  /\ Np.isnan (nth 12 (map YoY_Volume_Growth_pct fourteen_featured) 0%float) = false.
Proof.
  assert (Hf : features fourteen_months fourteen_featured) by reflexivity.
  assert (Hu : forallb (fun e => usable (TransactionVolume_Cr e)) fourteen_months
               = true) by (vm_compute; reflexivity).
  split; [exact Hf|]. split.
  - exact (@yoy_undefined_exactly_in_first_year fourteen_months fourteen_featured
             11 Hf Hu ltac:(vm_compute; lia)).
  - exact (@yoy_undefined_exactly_in_first_year fourteen_months fourteen_featured
             12 Hf Hu ltac:(vm_compute; lia)).
Defined.

(** X2. On a frame with no missing value the average is the undefined
    marker exactly on the rows where value and volume are both zero or
    both infinite. *)
Theorem average_undefined_exactly_for_indeterminate_ratios
  (df : list Entry) (f : list Featured) :
  features df f -> forallb complete df = true ->
  Forall (fun r =>
            Np.isnan (AvgTransactionValue_Rs r)
            = ((f_TransactionValue_RsCr r =? 0)%float
               && (f_TransactionVolume_Cr r =? 0)%float)
              || (Np.isinf (f_TransactionValue_RsCr r)
                  && Np.isinf (f_TransactionVolume_Cr r)))
         f.
Proof.
  intros Hf Hc. apply features_columns in Hf as (Ho & Ha & _).
  rewrite <- Ho in Ha, Hc. clear Ho.
  pose proof (Avg_column_rows _ Ha) as Hrows.
  rewrite forallb_map_compose in Hc. rewrite forallb_forall in Hc.
  rewrite Forall_forall in *. intros r Hr.
  rewrite (Hrows r Hr).
  specialize (Hc r Hr). unfold complete, Pd.notna, Pd.isna in Hc. simpl in Hc.
  apply andb_true_iff in Hc as [Hvol Hval]. apply negb_true_iff in Hvol, Hval.
  rewrite <- (div_nan_iff _ _ Hval Hvol).
  apply eq_true_iff_eq. rewrite !isnan_spec. apply round2_nan_iff.
Qed.

Lemma average_undefined_exactly_for_indeterminate_ratios_witness :
  features zero_volume_months (featured zero_volume_months)
  /\ forallb complete zero_volume_months = true
  /\ map (fun r => Np.isnan (AvgTransactionValue_Rs r)) (featured zero_volume_months)
     = [false; false; true]
  /\ Forall (fun r =>
               Np.isnan (AvgTransactionValue_Rs r)
               = ((f_TransactionValue_RsCr r =? 0)%float
                  && (f_TransactionVolume_Cr r =? 0)%float)
                 || (Np.isinf (f_TransactionValue_RsCr r)
                     && Np.isinf (f_TransactionVolume_Cr r)))
            (featured zero_volume_months).
Proof.
  assert (Hf : features zero_volume_months (featured zero_volume_months))
    by reflexivity.
  assert (Hc : forallb complete zero_volume_months = true) by reflexivity.
  split; [exact Hf|]. split; [exact Hc|]. split; [reflexivity|].
  exact (@average_undefined_exactly_for_indeterminate_ratios
           zero_volume_months (featured zero_volume_months) Hf Hc).
Defined.

(** ** Features and later rows *)

(** Truncation commutes with each step of the growth column. *)

Lemma firstn_zip_with {A B C} (g : A -> B -> C) n (s : list A) (t : list B) :
  firstn n (Pd.zip_with g s t) = Pd.zip_with g (firstn n s) (firstn n t).
Proof.
  revert s t; induction n as [|n IH]; intros [|x s] [|y t]; simpl;
    try reflexivity.
  now rewrite IH.
Qed.

Lemma firstn_ffill_from n last s :
  firstn n (Pd.ffill_from last s) = Pd.ffill_from last (firstn n s).
Proof.
  revert last s; induction n as [|n IH]; intros last [|x s]; simpl;
    try reflexivity.
  destruct (Pd.isna x); simpl; now rewrite IH.
Qed.

Lemma firstn_shift n k s :
  (n <= length s)%nat -> firstn n (Pd.shift k s) = Pd.shift k (firstn n s).
Proof.
  intros H. unfold Pd.shift.
  rewrite firstn_firstn, length_firstn, !Nat.min_l by lia.
  apply nth_error_ext. intros i. rewrite !nth_error_firstn.
  destruct (i <? n)%nat eqn:E; [|reflexivity].
  apply Nat.ltb_lt in E.
  rewrite !nth_error_app, repeat_length.
  destruct (i <? k)%nat; [reflexivity|].
  rewrite nth_error_firstn.
  destruct (Nat.ltb_spec (i - k) n); [reflexivity | lia].
Qed.

Lemma firstn_pct_change n k s :
  (n <= length s)%nat ->
  firstn n (Pd.pct_change k s) = Pd.pct_change k (firstn n s).
Proof.
  intros H. unfold Pd.pct_change, Pd.div, Pd.ffill.
  rewrite firstn_map, firstn_zip_with, firstn_shift, firstn_ffill_from
    by (now rewrite ffill_from_length).
  reflexivity.
Qed.

Lemma firstn_assign2 n df avg yoy :
  firstn n (assign2 df avg yoy)
  = assign2 (firstn n df) (firstn n avg) (firstn n yoy).
Proof.
  revert df avg yoy; induction n as [|n IH]; intros [|e df] [|a avg] [|g yoy];
    simpl; try reflexivity.
  now rewrite IH.
Qed.

Lemma featured_firstn (df : list Entry) (n : nat) :
  firstn n (featured df) = featured (firstn n df).
Proof.
  destruct (Nat.le_gt_cases n (length df)) as [H|H].
  - unfold featured. rewrite firstn_assign2. f_equal.
    + unfold AvgTransactionValue_column, Pd.round2, Pd.div.
      now rewrite firstn_map, firstn_zip_with, !firstn_map.
    + unfold YoY_column, Pd.round2.
      rewrite !firstn_map, firstn_pct_change by (now rewrite length_map).
      now rewrite firstn_map.
  - rewrite (firstn_all2 df) by lia.
    apply firstn_all2.
    destruct (@features_columns df (featured df)) as [Ho _]; [reflexivity|].
    apply (f_equal (@length _)) in Ho. rewrite length_map in Ho. lia.
Qed.

(** X3. No feature of a row looks at a later row. The features of the
    frame cut to its first [n] rows are the first [n] rows of the features
    of the whole frame, so the rows a later month adds leave the features
    of the earlier months as they were. *)
Theorem features_of_a_prefix (df : list Entry) (n : nat) :
  exists f,
    features df f
    /\ features (firstn n df) (firstn n f)
    /\ forall later, exists g, features (df ++ later) (f ++ g).
Proof.
  exists (featured df). split; [reflexivity|]. split.
  - unfold features. rewrite create_features_result. simpl.
    fold (featured (firstn n df)). now rewrite featured_firstn.
  - intros later. exists (skipn (length df) (featured (df ++ later))).
    unfold features. rewrite create_features_result. simpl.
    fold (featured (df ++ later)). f_equal.
    rewrite <- (firstn_skipn (length df) (featured (df ++ later))) at 1.
    f_equal. rewrite featured_firstn. f_equal.
    rewrite firstn_app, Nat.sub_diag, firstn_all. simpl. apply app_nil_r.
Qed.

Lemma monthly_steps_distance l i k a b :
  monthly_steps l ->
  nth_error l i = Some a -> nth_error l (i + k) = Some b ->
  Ts.month_index b = (Ts.month_index a + Z.of_nat k)%Z.
Proof.
  intros Hs Ha. revert b. induction k as [|k IH]; intros b Hb.
  - rewrite Nat.add_0_r in Hb. rewrite Ha in Hb. injection Hb as <-. lia.
  - destruct (nth_error_in_range l (t := i + k)) as [c Hc].
    { assert (nth_error l (i + S k) <> None) by congruence.
      apply nth_error_Some in H. lia. }
    replace (i + S k)%nat with (S (i + k)) in Hb by lia.
    rewrite (Hs _ _ _ Hc Hb), (IH _ Hc). lia.
Qed.

(** X4. On a frame whose dates are month starts one month apart, the row
    twelve places up is the same calendar month of the year before, so the
    growth of a row compares it with that month. *)
Theorem yoy_compares_with_the_same_month_a_year_before
  (df : list Entry) (f : list Featured) (t : nat) (e e0 : Entry) :
  features df f -> forallb complete df = true ->
  month_starts (map Date df) -> monthly_steps (map Date df) ->
  (12 <= t)%nat ->
  nth_error df t = Some e -> nth_error df (t - 12) = Some e0 ->
  month (Date e0) = month (Date e)
  /\ year (Date e0) = (year (Date e) - 1)%Z
  /\ nth_error (map YoY_Volume_Growth_pct f) t
     = Some (growth_pct (TransactionVolume_Cr e) (TransactionVolume_Cr e0)).
Proof.
  intros Hf Hc Hms Hsteps Ht He He0.
  assert (Hd : nth_error (map Date df) (t - 12 + 12) = Some (Date e)).
  { replace (t - 12 + 12)%nat with t by lia. rewrite nth_error_map, He.
    reflexivity. }
  assert (Hd0 : nth_error (map Date df) (t - 12) = Some (Date e0))
    by (rewrite nth_error_map, He0; reflexivity).
  pose proof (monthly_steps_distance _ _ Hsteps Hd0 Hd) as Hidx.
  unfold month_starts in Hms. rewrite Forall_forall in Hms.
  pose proof (Hms _ (nth_error_In _ _ Hd)) as H1.
  pose proof (Hms _ (nth_error_In _ _ Hd0)) as H0.
  unfold Ts.is_month_start in H0, H1. unfold Ts.month_index in Hidx.
  rewrite !andb_true_iff, !Z.leb_le in H0, H1.
  split; [lia|]. split; [lia|].
  apply features_columns in Hf as (_ & _ & ->).
  assert (Hlt : (t < length df)%nat).
  { apply nth_error_Some. congruence. }
  rewrite (YoY_column_at _ (complete_volume_notna _ Hc) Hlt).
  destruct (Nat.ltb_spec t 12); [lia|].
  assert (Hv : forall i x, nth_error df i = Some x ->
                           nth i (map TransactionVolume_Cr df) nan
                           = TransactionVolume_Cr x).
  { intros i x Hx. apply nth_error_nth. rewrite nth_error_map, Hx. reflexivity. }
  now rewrite (Hv _ _ He), (Hv _ _ He0).
Qed.

Lemma fourteen_months_monthly_steps : monthly_steps (map Date fourteen_months).
Proof.
  intros i a b Ha Hb.
  do 13 (destruct i as [|i]; [vm_compute in Ha, Hb; injection Ha as <-;
                              injection Hb as <-; reflexivity|]).
  vm_compute in Hb. destruct i; discriminate.
Qed.

Lemma yoy_compares_with_the_same_month_a_year_before_witness :
  exists e e0,
    nth_error fourteen_months 13 = Some e
    /\ nth_error fourteen_months 1 = Some e0
    /\ Date e = first_of_month 2022 2
    /\ month (Date e0) = month (Date e)
    /\ year (Date e0) = (year (Date e) - 1)%Z
    /\ nth_error (map YoY_Volume_Growth_pct fourteen_featured) 13
       = Some (growth_pct (TransactionVolume_Cr e) (TransactionVolume_Cr e0)).
Proof.
  assert (Hf : features fourteen_months fourteen_featured) by reflexivity.
  assert (Hc : forallb complete fourteen_months = true) by reflexivity.
  assert (Hms : month_starts (map Date fourteen_months)) by (repeat constructor).
  eexists. eexists.
  split; [vm_compute; reflexivity|]. split; [vm_compute; reflexivity|].
  split; [reflexivity|].
  refine (@yoy_compares_with_the_same_month_a_year_before
            fourteen_months fourteen_featured 13 _ _ Hf Hc Hms
            fourteen_months_monthly_steps ltac:(lia) _ _);
    vm_compute; reflexivity.
Defined.

(** ** The cleaned frame *)

(** X5. What every frame the loader returns satisfies, and where the other
    rows went: no volume and no value is missing, and the rows kept and the
    rows that do not coerce add up to the rows of the table.  On a table of
    valid periods every date is the first day of the row's year and month,
    inside the Timestamp range. *)
Theorem cleaned_frame_invariant
  {parser : Pd.Parser} (rows : list RawRecord) (df : list Entry) :
  loads (Table rows) df ->
  Forall (fun e =>
            Np.isnan (TransactionVolume_Cr e) = false
            /\ Np.isnan (TransactionValue_RsCr e) = false)
         df
  /\ (length df + length (filter (fun r => negb (coerces r)) rows))%nat
     = length rows
  /\ (forallb valid_row rows = true ->
      Forall (fun e =>
                Date e = mkTimestamp (Year e) (Month e) 1
                /\ Ts.is_month_start (Date e) = true
                /\ Ts.in_bounds (Ts.month_index (Date e)) = true)
             df).
Proof.
  intros H. pose proof (loads_complete H) as Hc.
  split; [|split].
  - rewrite forallb_forall in Hc. apply Forall_forall. intros e He.
    specialize (Hc e He). unfold complete, Pd.notna, Pd.isna in Hc.
    apply andb_true_iff in Hc as [H1 H2]. apply negb_true_iff in H1, H2.
    auto.
  - destruct (loads_inv H) as (dates & _ & Hlen & ->).
    pose proof (@cleaned_fields _ _ Hlen) as Hf.
    apply (f_equal (@length _)) in Hf. rewrite !length_map in Hf.
    rewrite Hf. apply filter_length.
  - intros Hv. rewrite (loads_valid_inv Hv H).
    rewrite forallb_forall in Hv. apply Forall_forall. intros e He.
    apply in_map_iff in He as (r & <- & Hr). apply filter_In in Hr as [Hr _].
    specialize (Hv r Hr). unfold valid_row, valid_period, Pd.well_formed in Hv.
    rewrite !andb_true_iff in Hv. destruct Hv as [[[[_ _] Hlo] Hhi] Hb].
    repeat split; try assumption.
    unfold Ts.is_month_start, entry_of, coerce_row, first_of_month; simpl.
    now rewrite Hlo, Hhi.
Qed.

Lemma cleaned_frame_invariant_witness :
  loads (parser := refusing) (Table sample_rows) sample_clean
  /\ (length sample_clean + length (filter (fun r => negb (coerces r)) sample_rows))%nat
     = length sample_rows
  /\ Forall (fun e => Date e = mkTimestamp (Year e) (Month e) 1) sample_clean.
Proof.
  assert (H : loads (parser := refusing) (Table sample_rows) sample_clean)
    by reflexivity.
  destruct (@cleaned_frame_invariant refusing sample_rows sample_clean H)
    as (_ & Hlen & Hdates).
  split; [exact H|]. split; [exact Hlen|].
  eapply Forall_impl; [|exact (Hdates eq_refl)]. intros e (He & _). exact He.
Defined.

(** ** The forecasting function, step by step *)

Section ForecastSteps.

Context {core : Prophet.Core}.

Lemma fit_Raise cfg0 df e : Prophet.fit cfg0 df = Raise e -> e = ValueError.
Proof.
  unfold Prophet.fit.
  destruct (length _ <? 2)%nat; [congruence|].
  destruct (existsb _ _); [congruence | discriminate].
Qed.

Lemma predict_Raise (m : Prophet.Model) dates e :
  Prophet.predict m dates = Raise e -> e = ValueError.
Proof. destruct dates; simpl; [congruence | discriminate]. Qed.

Lemma predict_Return (m : Prophet.Model) dates forecast :
  Prophet.predict m dates = Return forecast ->
  dates <> []
  /\ forecast = map (forecast_row m) (Ord.sort_values (fun d => d) dates).
Proof.
  destruct dates as [|d dates]; [discriminate|].
  unfold Prophet.predict. intros [= <-]. split; [discriminate | reflexivity].
Qed.

Lemma predict_nonempty (m : Prophet.Model) d dates :
  Prophet.predict m (d :: dates)
  = Return (map (forecast_row m) (Ord.sort_values (fun d => d) (d :: dates))).
Proof. reflexivity. Qed.

Lemma map_ds_forecast_row (m : Prophet.Model) dates :
  map Prophet.ds (map (forecast_row m) dates) = dates.
Proof. rewrite map_map. simpl. apply map_id. Qed.

End ForecastSteps.

Lemma check_targets_Raise {T} {arith : Arith T} (a b : list T) e :
  Sk.check_targets a b = Raise e -> e = ValueError.
Proof.
  unfold Sk.check_targets.
  destruct (negb _); [congruence|].
  destruct (_ =? 0)%nat; [congruence|].
  destruct (_ && _); [discriminate | congruence].
Qed.

Lemma score_Raise df forecast e : score df forecast = Raise e -> e = ValueError.
Proof.
  unfold score, Sk.mean_absolute_error, Sk.root_mean_squared_error,
    Sk.mean_squared_error.
  destruct (Sk.check_targets _ _) as [[]|e'] eqn:E; simpl.
  - discriminate.
  - intros [= <-]. exact (@check_targets_Raise float float64 _ _ _ E).
Qed.

(** A list in order is left as it is by the sort. *)
Lemma sort_values_sorted_id {A} (key : A -> Timestamp) (l : list A) :
  sorted_by_key key l -> Ord.sort_values key l = l.
Proof.
  unfold sorted_by_key. induction 1 as [|x l Hl IH Hx]; simpl; [reflexivity|].
  rewrite IH. destruct l as [|y l]; [reflexivity|]. simpl.
  inversion Hx as [|? ? Hxy _]; subst. unfold at_most in Hxy. now rewrite Hxy.
Qed.

Lemma ascending_sorted l : ascending l -> sorted_by_key (fun d => d) l.
Proof.
  unfold ascending, sorted_by_key.
  induction 1 as [|x l Hl IH Hx]; constructor; [exact IH|].
  eapply Forall_impl; [|exact Hx]. intros y Hy.
  apply Ts_leb_spec. left. now apply Ts_ltb_spec.
Qed.

(** X6. The forecast of the holdout comes back in date order, one row per
    holdout row; it lines up with the holdout, row for row, exactly when
    the holdout itself is in date order. *)
Theorem holdout_forecast_is_in_date_order
  {core : Prophet.Core} (df : list Featured) (forecast : list Prophet.Forecast) :
  test_forecast df = Return forecast ->
  map Prophet.ds forecast = Ord.sort_values (fun d => d) (map fst (test df))
  /\ Permutation (map fst (test df)) (map Prophet.ds forecast)
  /\ length forecast = length (test df)
  /\ sorted_by_key (fun d => d) (map Prophet.ds forecast)
  /\ (map Prophet.ds forecast = map fst (test df)
      <-> sorted_by_key (fun d => d) (map fst (test df))).
Proof.
  unfold test_forecast. intros H.
  apply bind_Return in H as (m & _ & Hp).
  apply predict_Return in Hp as [_ ->].
  rewrite map_ds_forecast_row.
  pose proof (sort_values_perm (fun d => d) (map fst (test df))) as Hperm.
  repeat split.
  - exact Hperm.
  - rewrite length_map, <- (Permutation_length Hperm). apply length_map.
  - apply sort_values_sorted.
  - intros <-. apply sort_values_sorted.
  - apply sort_values_sorted_id.
Qed.

Lemma holdout_forecast_is_in_date_order_witness :
  exists forecast,
    test_forecast (core := last_value) fourteen_featured = Return forecast
    /\ map Prophet.ds forecast = map fst (test fourteen_featured)
    /\ length forecast = 12%nat.
Proof.
  eexists. split; [vm_compute; reflexivity|].
  match goal with
  | |- map Prophet.ds ?f = _ /\ _ =>
      assert (Ht : test_forecast (core := last_value) fourteen_featured = Return f)
        by (vm_compute; reflexivity);
      destruct (@holdout_forecast_is_in_date_order last_value fourteen_featured f Ht)
        as (_ & _ & Hlen & Hs & _)
  end.
  split; [reflexivity | exact Hlen].
Defined.

Section ForecastCases.

Context {core : Prophet.Core}.

(** The function, by the way its evaluation goes. *)
Lemma forecast_transactions_cases (df : list Featured) :
  match test_forecast df with
  | Raise e => forecast_transactions df = mkIo [ForecastBanner] (Raise e)
  | Return forecast =>
      match score df forecast with
      | Raise e => forecast_transactions df = mkIo [ForecastBanner] (Raise e)
      | Return (mae, rmse) =>
          forecast_transactions df
          = mkIo [ForecastBanner; EvaluationBanner; MaeLine mae; RmseLine rmse]
                 (final_stage df)
      end
  end.
Proof.
  unfold forecast_transactions, final_stage, io_bind, lift, print, ret.
  destruct (test_forecast df) as [forecast|e]; simpl; [|reflexivity].
  destruct (score df forecast) as [[mae rmse]|e]; simpl; [|reflexivity].
  destruct (full_model df) as [m|e]; simpl; [|reflexivity].
  destruct (Prophet.make_future_dataframe m 24) as [grid|e]; simpl; [|reflexivity].
  destruct (Prophet.predict m grid); reflexivity.
Qed.

Lemma test_forecast_Raise (df : list Featured) e :
  test_forecast df = Raise e -> e = ValueError.
Proof.
  unfold test_forecast, evaluation_model.
  destruct (Prophet.fit cfg (train df)) as [m|e'] eqn:E; simpl.
  - apply predict_Raise.
  - intros [= <-]. eapply fit_Raise, E.
Qed.

Lemma fit_Return_rows cfg0 df (m : Prophet.Model) :
  Prophet.fit cfg0 df = Return m -> (2 <= length df)%nat.
Proof.
  unfold Prophet.fit.
  pose proof (filter_length_le (fun r => Pd.notna (snd r)) df) as Hle.
  destruct (Nat.ltb_spec (length (filter (fun r => Pd.notna (snd r)) df)) 2);
    [discriminate | lia].
Qed.

Lemma test_forecast_Return (df : list Featured) forecast :
  test_forecast df = Return forecast ->
  (14 <= length df)%nat /\ length forecast = 12%nat.
Proof.
  intros H. pose proof H as H'.
  unfold test_forecast, evaluation_model in H.
  apply bind_Return in H as (m & Hm & Hp).
  apply fit_Return_rows in Hm. rewrite train_length in Hm.
  apply predict_Return in Hp as [_ ->].
  split; [lia|].
  rewrite length_map, <- (Permutation_length (sort_values_perm _ _)),
    length_map, test_length. lia.
Qed.

End ForecastCases.

(** X7. The function prints its two metrics together, after the banner of
    the evaluation, exactly when the evaluation went through, which needs
    at least fourteen rows and scores twelve forecasts; otherwise it ends
    with a ValueError after its first banner alone. *)
Theorem evaluation_report {core : Prophet.Core} (df : list Featured) :
  (exists forecast mae rmse,
      test_forecast df = Return forecast
      /\ score df forecast = Return (mae, rmse)
      /\ (14 <= length df)%nat /\ length forecast = 12%nat
      /\ stdout (forecast_transactions df)
         = [ForecastBanner; EvaluationBanner; MaeLine mae; RmseLine rmse])
  \/ forecast_transactions df = mkIo [ForecastBanner] (Raise ValueError).
Proof.
  pose proof (forecast_transactions_cases df) as H.
  destruct (test_forecast df) as [forecast|e] eqn:Et.
  - destruct (score df forecast) as [[mae rmse]|e] eqn:Es.
    + left. exists forecast, mae, rmse.
      destruct (test_forecast_Return _ Et) as [H14 H12].
      rewrite H. auto.
    + right. rewrite H. now rewrite (score_Raise _ _ Es).
  - right. rewrite H. now rewrite (test_forecast_Raise _ Et).
Qed.

(** X8. A holdout with a volume that is infinite or missing is never
    scored: the function ends with a ValueError and prints no metric. *)
Theorem non_finite_holdout_is_refused {core : Prophet.Core} (df : list Featured) :
  forallb Np.isfinite (map snd (test df)) = false ->
  forecast_transactions df = mkIo [ForecastBanner] (Raise ValueError).
Proof.
  intros Hbad.
  pose proof (forecast_transactions_cases df) as H.
  destruct (test_forecast df) as [forecast|e] eqn:Et.
  - destruct (score df forecast) as [[mae rmse]|e] eqn:Es.
    + exfalso. apply score_inv in Es as [Hm _].
      apply mean_absolute_error_inv in Hm as [Hc _].
      apply check_targets_inv in Hc as (_ & _ & Hfin & _).
      simpl in Hfin. congruence.
    + rewrite H. now rewrite (score_Raise _ _ Es).
  - rewrite H. now rewrite (test_forecast_Raise _ Et).
Qed.

Lemma non_finite_holdout_is_refused_witness :
  length overflowing_featured = 14%nat
  /\ forallb Np.isfinite (map snd (test overflowing_featured)) = false
  /\ forecast_transactions (core := last_value) overflowing_featured
     = mkIo [ForecastBanner] (Raise ValueError).
Proof.
  assert (H : forallb Np.isfinite (map snd (test overflowing_featured)) = false)
    by (vm_compute; reflexivity).
  split; [reflexivity|]. split; [exact H|].
  exact (@non_finite_holdout_is_refused last_value overflowing_featured H).
Defined.

Section FinalForecast.

Context {core : Prophet.Core}.

Lemma final_stage_Return (df : list Featured) final :
  result (forecast_transactions df) = Return final -> final_stage df = Return final.
Proof.
  pose proof (forecast_transactions_cases df) as H.
  destruct (test_forecast df) as [forecast|e]; [|rewrite H; discriminate].
  destruct (score df forecast) as [[mae rmse]|e]; rewrite H;
    [auto | discriminate].
Qed.

(** The grid of a frame of month starts: the history in order, then the 24
    months after its last date, ascending throughout. *)
Lemma grid_structure (df : list Featured) (m : Prophet.Model) grid :
  month_starts (map f_Date df) ->
  full_model df = Return m ->
  Prophet.make_future_dataframe m 24 = Return grid ->
  exists last,
    In last (map f_Date df)
    /\ grid = Ord.sort_values (fun d => d) (Ord.unique (map f_Date df))
              ++ months_after last 24
    /\ ascending grid.
Proof.
  intros Hms Hm Hg.
  set (history := Ord.sort_values (fun d => d) (Ord.unique (map f_Date df))).
  pose proof (fit_history_dates _ _ Hm) as Hh.
  unfold prophet_df in Hh. rewrite map_map in Hh. simpl in Hh.
  change (map (fun r => f_Date r) df) with (map f_Date df) in Hh.
  fold history in Hh.
  assert (Hperm : Permutation (Ord.unique (map f_Date df)) history)
    by apply sort_values_perm.
  assert (Hin_hist : forall d, In d history <-> In d (map f_Date df)).
  { intros d. rewrite <- (unique_In d (map f_Date df)).
    split; apply Permutation_in;
      [apply Permutation_sym|]; exact Hperm. }
  assert (Hms' : month_starts (Prophet.history_dates m)).
  { rewrite Hh. unfold month_starts in *. rewrite Forall_forall in *.
    intros d Hd. apply Hms, Hin_hist, Hd. }
  destruct (make_future_dataframe_inv _ _ Hms' Hg) as (d0 & rest & E & ->).
  rewrite Hh in *.
  destruct (max_spec rest d0) as [Hin Hall].
  set (last := Ord.max d0 rest) in *. rewrite <- E in Hin, Hall.
  assert (Hlast : Ts.is_month_start last = true).
  { unfold month_starts in Hms. rewrite Forall_forall in Hms.
    apply Hms, Hin_hist, Hin. }
  exists last. split; [apply Hin_hist, Hin|]. split; [reflexivity|].
  apply ascending_app.
  - apply sorted_NoDup_ascending; [apply sort_values_sorted|].
    eapply Permutation_NoDup; [exact Hperm | apply unique_NoDup].
  - apply months_after_ascending.
  - intros a b Ha Hb. rewrite Forall_forall in Hall.
    apply Ts_ltb_spec. apply in_map_iff in Hb as (i & <- & Hi). apply in_seq in Hi.
    assert (Hlb : lex_lt last (Ts.month_start (Ts.month_index last + Z.of_nat i))).
    { rewrite <- (is_month_start_inv _ Hlast) at 1. apply month_start_lt. lia. }
    destruct (proj1 (Ts_leb_spec a last) (Hall a Ha)) as [H| ->];
      [eapply lex_lt_trans; eauto | exact Hlb].
Qed.

End FinalForecast.

(** X9. What the function returns. On a frame of month starts the returned
    forecast has one row per date of the grid, in the order of the grid:
    every historical period is predicted again and 24 future months
    follow, each with the forecast of the model refitted on every row. *)
Theorem returned_forecast_covers_history_and_horizon
  {core : Prophet.Core} (df : list Featured) (final : list Prophet.Forecast) :
  month_starts (map f_Date df) ->
  result (forecast_transactions df) = Return final ->
  exists (m : Prophet.Model) grid last,
    full_model df = Return m
    /\ future df = Return grid
    /\ final = map (forecast_row m) grid
    /\ map Prophet.ds final
       = Ord.sort_values (fun d => d) (Ord.unique (map f_Date df))
         ++ months_after last 24
    /\ length final = (length (Ord.unique (map f_Date df)) + 24)%nat
    /\ ascending (map Prophet.ds final)
    /\ (forall r, In r df -> In (f_Date r) (map Prophet.ds final)).
Proof.
  intros Hms H. apply final_stage_Return in H.
  unfold final_stage in H.
  apply bind_Return in H as (m & Hm & H).
  apply bind_Return in H as (grid & Hg & Hp).
  destruct (grid_structure _ Hms Hm Hg) as (last & Hlast & Egrid & Hasc).
  apply predict_Return in Hp as [_ ->].
  rewrite (sort_values_sorted_id (ascending_sorted Hasc)).
  rewrite map_ds_forecast_row.
  exists m, grid, last.
  split; [exact Hm|]. split; [unfold future; now rewrite Hm|].
  split; [reflexivity|]. split; [exact Egrid|].
  split; [|split; [exact Hasc|]].
  - rewrite length_map, Egrid, length_app, months_after_length.
    now rewrite <- (Permutation_length (sort_values_perm _ _)).
  - intros r Hr. rewrite Egrid. apply in_or_app. left.
    eapply Permutation_in; [apply sort_values_perm|].
    apply unique_In. now apply in_map.
Qed.

Lemma returned_forecast_covers_history_and_horizon_witness :
  month_starts (map f_Date fourteen_featured)
  /\ exists final,
       result (forecast_transactions (core := last_value) fourteen_featured)
       = Return final
       /\ length final = 38%nat
       /\ ascending (map Prophet.ds final).
Proof.
  assert (Hms : month_starts (map f_Date fourteen_featured))
    by (repeat constructor).
  split; [exact Hms|].
  eexists. split; [vm_compute; reflexivity|].
  match goal with
  | |- length ?f = _ /\ _ =>
      assert (Hr : result (forecast_transactions (core := last_value)
                             fourteen_featured) = Return f)
        by (vm_compute; reflexivity);
      destruct (@returned_forecast_covers_history_and_horizon
                  last_value fourteen_featured f Hms Hr)
        as (m & grid & last & _ & _ & _ & _ & _ & Hasc & _)
  end.
  split; [reflexivity | exact Hasc].
Defined.

Section Returns.

Context {core : Prophet.Core}.

Lemma isfinite_notna_not_inf v :
  Np.isfinite v = true -> Pd.notna v = true /\ Np.isinf v = false.
Proof.
  unfold Np.isfinite, Pd.notna, Pd.isna.
  rewrite andb_true_iff, !negb_true_iff. intros [-> ->]. auto.
Qed.

(** Prophet accepts every frame of two rows or more with finite values. *)
Lemma fit_returns cfg0 (df : list (Timestamp * float)) :
  (2 <= length df)%nat ->
  forallb (fun r => Np.isfinite (snd r)) df = true ->
  exists m : Prophet.Model, Prophet.fit cfg0 df = Return m.
Proof.
  intros Hlen Hfin. unfold Prophet.fit.
  assert (Hid : filter (fun r => Pd.notna (snd r)) df = df).
  { apply forallb_filter_id. rewrite forallb_forall in *.
    intros r Hr. now apply isfinite_notna_not_inf, Hfin. }
  rewrite Hid.
  destruct (Nat.ltb_spec (length df) 2); [lia|].
  assert (Hinf : existsb (fun r => Np.isinf (snd r)) df = false).
  { destruct (existsb _ df) eqn:E; [|reflexivity].
    apply existsb_exists in E as (r & Hr & Hi).
    rewrite forallb_forall in Hfin.
    destruct (isfinite_notna_not_inf _ (Hfin r Hr)). congruence. }
  rewrite Hinf. eauto.
Qed.

Lemma prophet_df_finite (df : list Featured) :
  forallb (fun r => Np.isfinite (f_TransactionVolume_Cr r)) df = true ->
  forallb (fun r => Np.isfinite (snd r)) (prophet_df df) = true.
Proof. intros H. unfold prophet_df. now rewrite forallb_map_compose. Qed.

Lemma train_test_finite (df : list Featured) :
  forallb (fun r => Np.isfinite (f_TransactionVolume_Cr r)) df = true ->
  forallb (fun r => Np.isfinite (snd r)) (train df) = true
  /\ forallb (fun r => Np.isfinite (snd r)) (test df) = true.
Proof.
  intros H. apply prophet_df_finite in H.
  unfold train, test, Pd.iloc_upto_neg, Pd.iloc_from_neg.
  rewrite <- (firstn_skipn (length (prophet_df df) - 12) (prophet_df df)) in H at 1.
  rewrite forallb_app in H. now apply andb_true_iff in H.
Qed.

End Returns.



(** ** The process *)

Lemma script_bind_Completed {A B} (m : script A) (k : A -> script B) a :
  ending_of m = Completed a ->
  script_bind m k = mkScript (effects m ++ effects (k a)) (ending_of (k a)).
Proof. unfold script_bind. now intros ->. Qed.

Lemma script_bind_Failed {A B} (m : script A) (k : A -> script B) f :
  ending_of m = Failed f -> script_bind m k = mkScript (effects m) (Failed f).
Proof. unfold script_bind. now intros ->. Qed.

Section Positive.

Open Scope float_scope.

Lemma finite_not_leb_zero_positive v :
  Np.isfinite v = true -> (v <=? 0) = false -> (0 <? v) = true.
Proof.
  intros Hf. rewrite FloatAxioms.leb_spec, FloatAxioms.ltb_spec.
  change (Prim2SF 0) with (S754_zero false).
  destruct (isfinite_inv _ Hf) as [[s ->]|(s & m & e & ->)];
    unfold SFleb, SFltb; simpl.
  - discriminate.
  - destruct s; [discriminate | reflexivity].
Qed.

End Positive.

Lemma seasonal_decompose_Return {sm : Sm.Core} x period d :
  Sm.seasonal_decompose x Sm.multiplicative_model period = Return d ->
  forallb Np.isfinite x = true
  /\ existsb (fun v => (v <=? 0)%float) x = false
  /\ (2 * period <= length x)%nat.
Proof.
  unfold Sm.seasonal_decompose.
  destruct (forallb Np.isfinite x); [|discriminate]. cbn [negb].
  destruct (existsb _ x); [discriminate|].
  destruct (Nat.ltb_spec (length x) (2 * period)); [discriminate|].
  auto.
Qed.

Lemma seasonal_decompose_Raise {sm : Sm.Core} x model period e :
  Sm.seasonal_decompose x model period = Raise e -> e = ValueError.
Proof.
  unfold Sm.seasonal_decompose.
  destruct (negb _); [congruence|].
  destruct (match model with Sm.additive_model => _ | _ => _ end); [congruence|].
  destruct (_ <? _)%nat; [congruence | discriminate].
Qed.

Section Eda.

Context {sm : Sm.Core} {charts : Charts}.

Lemma perform_eda_effects (df : list Featured) :
  exists n, effects (perform_eda df) = firstn n eda_effects.
Proof.
  unfold perform_eda, script_bind, emit, draw, library, call, lift, done.
  destruct (volume_chart _ _); simpl; [|exists 1%nat; reflexivity].
  destruct (heatmap_chart _); simpl; [|exists 2%nat; reflexivity].
  destruct (Sm.seasonal_decompose _ _ _) as [d|e]; simpl;
    [|exists 4%nat; reflexivity].
  destruct (decomposition_chart d); simpl;
    [exists 6%nat | exists 4%nat]; reflexivity.
Qed.

Lemma perform_eda_Completed (df : list Featured) :
  ending_of (perform_eda df) = Completed tt ->
  effects (perform_eda df) = eda_effects
  /\ (24 <= length df)%nat
  /\ forallb (fun r => Np.isfinite (f_TransactionVolume_Cr r)) df = true
  /\ Forall (fun r => (0 <? f_TransactionVolume_Cr r)%float = true) df.
Proof.
  unfold perform_eda, script_bind, emit, draw, library, call, lift, done.
  destruct (volume_chart _ _); simpl; [|discriminate].
  destruct (heatmap_chart _); simpl; [|discriminate].
  destruct (Sm.seasonal_decompose _ _ _) as [d|e] eqn:Ed; simpl; [|discriminate].
  destruct (decomposition_chart d); simpl; [|discriminate].
  intros _. apply seasonal_decompose_Return in Ed as (Hfin & Hpos & Hlen).
  rewrite length_map in Hlen. rewrite forallb_map_compose in Hfin.
  split; [reflexivity|]. split; [lia|]. split; [exact Hfin|].
  rewrite forallb_forall in Hfin.
  apply Forall_forall. intros r Hr.
  apply finite_not_leb_zero_positive; [auto|].
  destruct (f_TransactionVolume_Cr r <=? 0)%float eqn:E; [|reflexivity].
  assert (existsb (fun v => (v <=? 0)%float) (map f_TransactionVolume_Cr df) = true).
  { apply existsb_exists. exists (f_TransactionVolume_Cr r).
    split; [now apply in_map | exact E]. }
  congruence.
Qed.

Lemma in_eda_effects (df : list Featured) (e : effect) :
  In e (effects (perform_eda df)) -> In e eda_effects.
Proof.
  destruct (perform_eda_effects df) as [n ->]. intros H.
  rewrite <- (firstn_skipn n eda_effects). apply in_or_app. now left.
Qed.

(** X11. The exploratory analysis, by where it stops.  Its effects are always
    the first few of the same six, in the same order; it runs to its end
    only on a series of at least 24 rows whose volumes are all finite and
    positive; short of that the decomposition plot is not saved. *)
Theorem perform_eda_stops_in_order (df : list Featured) :
  (exists n, effects (perform_eda df) = firstn n eda_effects)
  /\ (ending_of (perform_eda df) = Completed tt <->
      effects (perform_eda df) = eda_effects)
  /\ (In (Savefig upi_decomposition_plot_png) (effects (perform_eda df)) <->
      ending_of (perform_eda df) = Completed tt)
  /\ (ending_of (perform_eda df) = Completed tt ->
      (24 <= length df)%nat
      /\ Forall (fun r => Np.isfinite (f_TransactionVolume_Cr r) = true
                          /\ (0 <? f_TransactionVolume_Cr r)%float = true) df).
Proof.
  unfold perform_eda, script_bind, emit, draw, library, call, lift, done.
  destruct (volume_chart _ _); simpl.
  2:{ split; [exists 1%nat; reflexivity|].
      repeat split; try discriminate; intros H; simpl in H;
        intuition discriminate. }
  destruct (heatmap_chart _); simpl.
  2:{ split; [exists 2%nat; reflexivity|].
      repeat split; try discriminate; intros H; simpl in H;
        intuition discriminate. }
  destruct (Sm.seasonal_decompose _ _ _) as [d|e] eqn:Ed; simpl.
  2:{ split; [exists 4%nat; reflexivity|].
      repeat split; try discriminate; intros H; simpl in H;
        intuition discriminate. }
  destruct (decomposition_chart d); simpl.
  2:{ split; [exists 4%nat; reflexivity|].
      repeat split; try discriminate; intros H; simpl in H;
        intuition discriminate. }
  split; [exists 6%nat; reflexivity|].
  split; [split; reflexivity|].
  split; [split; [reflexivity | intros _; simpl; auto 6]|].
  intros _. apply seasonal_decompose_Return in Ed as (Hfin & Hpos & Hlen).
  rewrite length_map in Hlen. split; [lia|].
  rewrite forallb_map_compose in Hfin. rewrite forallb_forall in Hfin.
  apply Forall_forall. intros r Hr. split; [auto|].
  apply finite_not_leb_zero_positive; [auto|].
  destruct (f_TransactionVolume_Cr r <=? 0)%float eqn:E; [|reflexivity].
  assert (existsb (fun v => (v <=? 0)%float) (map f_TransactionVolume_Cr df) = true).
  { apply existsb_exists. exists (f_TransactionVolume_Cr r).
    split; [now apply in_map | exact E]. }
  congruence.
Qed.

End Eda.

Lemma script_bind_call_Return {A B} (m : io A) (k : A -> script B) a :
  result m = Return a ->
  script_bind (call m) k
  = mkScript (map Printed (stdout m) ++ effects (k a)) (ending_of (k a)).
Proof. unfold script_bind, call. simpl. now intros ->. Qed.

Lemma script_bind_call_Raise {A B} (m : io A) (k : A -> script B) e :
  result m = Raise e ->
  script_bind (call m) k = mkScript (map Printed (stdout m)) (Failed (Uncaught e)).
Proof. unfold script_bind, call. simpl. now intros ->. Qed.

Lemma script_bind_emit {B} (e : effect) (k : unit -> script B) :
  script_bind (emit e) k = mkScript (e :: effects (k tt)) (ending_of (k tt)).
Proof. reflexivity. Qed.

Lemma create_features_returns (df : list Entry) :
  result (create_features df) = Return (featured df).
Proof. reflexivity. Qed.

Section Main.

Context {parser : Pd.Parser} {core : Prophet.Core} {sm : Sm.Core} {charts : Charts}.

(** The main block once the loader has returned a frame, by where it
    stops. *)
Lemma main_loaded (csv : read_csv_result) (df : list Entry) :
  loads csv df ->
  let f := featured df in
  let run := forecast_transactions f in
  main csv
  = match ending_of (perform_eda f) with
    | Failed x =>
        mkScript (processing_effects f ++ effects (perform_eda f)) (Failed x)
    | Completed _ =>
        match result run with
        | Raise e =>
            mkScript (processing_effects f ++ effects (perform_eda f)
                      ++ map Printed (stdout run))
                     (Failed (Uncaught e))
        | Return forecast =>
            if forecast_chart (prophet_df f) forecast then
              mkScript (processing_effects f ++ effects (perform_eda f)
                        ++ map Printed (stdout run) ++ closing_effects forecast)
                       (Completed tt)
            else
              mkScript (processing_effects f ++ effects (perform_eda f)
                        ++ map Printed (stdout run))
                       (Failed ChartError)
        end
    end.
Proof.
  intros L f run. destruct (loads_Table L) as (rows & -> & E). unfold main.
  rewrite (script_bind_call_Return _ _ L).
  rewrite E. cbn [stdout map].
  rewrite (script_bind_call_Return _ _ (create_features_returns _)).
  rewrite create_features_result. cbn [stdout map].
  fold (featured df). fold f.
  rewrite !script_bind_emit. cbn [effects ending_of app].
  unfold processing_effects.
  destruct (ending_of (perform_eda f)) as [[]|x] eqn:Eeda.
  - rewrite (script_bind_Completed _ _ Eeda). cbn [effects ending_of app].
    unfold forecast_transactions_charted. fold run.
    destruct (result run) as [forecast|e] eqn:Erun.
    + rewrite (script_bind_call_Return _ _ Erun).
      unfold draw, closing_effects.
      destruct (forecast_chart (prophet_df f) forecast);
        unfold script_bind, done, emit;
        cbn -[perform_eda forecast_transactions];
        rewrite ?app_nil_r, <- ?app_assoc; reflexivity.
    + rewrite (script_bind_call_Raise _ _ Erun). unfold script_bind.
      cbn -[perform_eda forecast_transactions]. reflexivity.
  - rewrite (script_bind_Failed _ _ Eeda).
    cbn -[perform_eda forecast_transactions]. reflexivity.
Qed.

Lemma main_not_loaded (csv : read_csv_result) e :
  result (load_and_clean_data csv) = Raise e ->
  stdout (load_and_clean_data csv) = [] ->
  main csv = mkScript [] (Failed (Uncaught e)).
Proof.
  intros H Hout. unfold main.
  rewrite (script_bind_call_Raise _ _ H), Hout. reflexivity.
Qed.

Lemma forecast_transactions_banner (df : list Featured) :
  exists rest, stdout (forecast_transactions df) = ForecastBanner :: rest.
Proof.
  pose proof (forecast_transactions_cases df) as H.
  destruct (test_forecast df) as [forecast|e];
    [destruct (score df forecast) as [[mae rmse]|e]|];
    rewrite H; simpl; eauto.
Qed.

End Main.

(** Membership in the effects of a run, case by case. *)
Ltac effect_cases :=
  repeat match goal with
         | H : In _ (_ ++ _) |- _ => apply in_app_or in H as [H|H]
         | H : In _ (effects (perform_eda _)) |- _ =>
             apply in_eda_effects in H; unfold eda_effects in H
         | H : In _ (closing_effects _) |- _ => unfold closing_effects in H
         | H : In _ (processing_effects _) |- _ => unfold processing_effects in H
         | H : In _ (map Printed _) |- _ =>
             let l := fresh "l" in apply in_map_iff in H as (l & H & _)
         | H : In _ (_ :: _) |- _ => destruct H as [H|H]
         | H : In _ [] |- _ => destruct H
         end;
  try discriminate.

Section MainProperties.

Context {parser : Pd.Parser} {core : Prophet.Core} {sm : Sm.Core} {charts : Charts}.

(** What a run of the main block is, for every input: the file is missing,
    or the loader raises before anything is printed, or a frame is loaded. *)
Lemma main_cases (csv : read_csv_result) :
  (csv = FileNotFoundError
   /\ main csv = mkScript [Printed FileNotFoundMessage] (Completed tt))
  \/ (exists e, main csv = mkScript [] (Failed (Uncaught e))
                 /\ forall df, ~ loads csv df)
  \/ (exists df, loads csv df).
Proof.
  destruct csv as [|e| |rows].
  - left; split; reflexivity.
  - right; left. exists e. split; [reflexivity | discriminate].
  - right; left. exists ValueError. split; [reflexivity | discriminate].
  - destruct (Pd.to_datetime (map year_month rows)) as [dates|e] eqn:E.
    + right; right. eexists. unfold loads. rewrite (load_Return _ E). reflexivity.
    + right; left. exists e. pose proof (load_Raise _ E) as H. split.
      * apply main_not_loaded; rewrite H; reflexivity.
      * intros df L. unfold loads in L. rewrite H in L. discriminate.
Qed.

Lemma featured_length (df : list Entry) : length (featured df) = length df.
Proof.
  destruct (@features_columns df (featured df)) as [H _]; [reflexivity|].
  rewrite <- H at 2. now rewrite length_map.
Qed.

Lemma loads_unique csv df df' : loads csv df -> loads csv df' -> df = df'.
Proof. unfold loads. congruence. Qed.

(** X12. The processed data. The main block writes it exactly when the
    loader returned a frame, and then it is the featured copy of that
    frame, written once, right after the two banners and before any figure;
    what happens later in the run does not undo it. Without a frame the run
    prints at most the file-not-found message and writes nothing. *)
Theorem processed_data_is_saved_iff_loaded (csv : read_csv_result) :
  (forall f, In (ProcessedCsv f) (effects (main csv))
             <-> exists df, loads csv df /\ f = featured df)
  /\ (forall df, loads csv df ->
        exists rest,
          effects (main csv) = processing_effects (featured df) ++ rest
          /\ forall f, ~ In (ProcessedCsv f) rest)
  /\ ((forall df, ~ loads csv df) ->
        forall e, In e (effects (main csv)) -> e = Printed FileNotFoundMessage).
Proof.
  destruct (main_cases csv) as [[-> E]|[(e & E & Hnone)|(df0 & L)]].
  - rewrite E. simpl. split; [|split].
    + intros f. split; [intros [H|[]]; discriminate|].
      intros (df & H & _). discriminate H.
    + intros df H. discriminate H.
    + intros _ e [<-|[]]. reflexivity.
  - rewrite E. simpl. split; [|split].
    + intros f. split; [intros []|].
      intros (df & H & _). now apply Hnone in H.
    + intros df H. now apply Hnone in H.
    + intros _ e0 [].
  - set (f0 := featured df0).
    assert (Hrest : exists rest,
               effects (main csv) = processing_effects f0 ++ rest
               /\ forall f, ~ In (ProcessedCsv f) rest).
    { rewrite (main_loaded L). fold f0.
      destruct (ending_of (perform_eda f0)) as [[]|x];
        [destruct (result (forecast_transactions f0)) as [fc|e];
         [destruct (forecast_chart (prophet_df f0) fc)|]|];
        cbn [effects]; eexists; (split; [reflexivity|]);
        intros f H; effect_cases. }
    destruct Hrest as (rest & E & Hno). split; [|split].
    + intros f. rewrite E. split.
      * intros H. apply in_app_or in H as [H|H]; [|now apply Hno in H].
        unfold processing_effects in H. effect_cases.
        injection H as <-. eauto.
      * intros (df & Hdf & ->). rewrite (loads_unique Hdf L).
        apply in_or_app. left. simpl. auto.
    + intros df Hdf. rewrite (loads_unique Hdf L). eauto.
    + intros Hnone. now apply Hnone in L.
Qed.

(** X13. The end of the pipeline. A run of the main block ends normally in
    two cases only: the file was missing, or the closing banner was printed.
    The forecast file is written exactly in the runs that print the closing
    banner, it holds what forecast_transactions returned on the featured
    frame, and in those runs all four figures have been saved. *)
Theorem forecast_is_saved_iff_pipeline_completes (csv : read_csv_result) :
  (ending_of (main csv) = Completed tt
   <-> csv = FileNotFoundError
       \/ In (Noticed PipelineComplete) (effects (main csv)))
  /\ (forall fc, In (ForecastCsv fc) (effects (main csv))
                 <-> In (Noticed PipelineComplete) (effects (main csv))
                     /\ exists df, loads csv df
                          /\ result (forecast_transactions (featured df))
                             = Return fc)
  /\ (In (Noticed PipelineComplete) (effects (main csv)) ->
      forall g, In (Savefig g) (effects (main csv))).
Proof.
  destruct (main_cases csv) as [[-> E]|[(e & E & Hnone)|(df0 & L)]].
  - rewrite E. simpl. split; [|split].
    + split; auto.
    + intros fc. split; [intros [H|[]]; discriminate|].
      intros [[H|[]] _]; discriminate.
    + intros [H|[]]; discriminate.
  - rewrite E. simpl. split; [|split].
    + split; [discriminate|]. intros [->|[]].
      exfalso. clear Hnone. discriminate E.
    + intros fc. split; [intros [] | intros [[] _]].
    + intros [].
  - assert (Hcsv : csv <> FileNotFoundError)
      by (intros ->; discriminate L).
    set (f0 := featured df0).
    rewrite (main_loaded L). fold f0.
    destruct (ending_of (perform_eda f0)) as [[]|x] eqn:Eeda;
      [destruct (result (forecast_transactions f0)) as [fc0|e] eqn:Erun;
       [destruct (forecast_chart (prophet_df f0) fc0)|]|];
      cbn [effects ending_of].
    + (* the run that completes *)
      assert (Hdone : In (Noticed PipelineComplete)
                         (processing_effects f0 ++ effects (perform_eda f0)
                          ++ map Printed (stdout (forecast_transactions f0))
                          ++ closing_effects fc0)).
      { do 3 (apply in_or_app; right). simpl. auto. }
      split; [|split].
      * split; auto.
      * intros fc. split.
        -- intros H. split; [exact Hdone|]. clear Hdone.
           effect_cases. injection H as <-.
           exists df0. auto.
        -- intros (_ & df & Hdf & Hfc).
           rewrite (loads_unique Hdf L) in Hfc. fold f0 in Hfc.
           assert (fc = fc0) as -> by congruence.
           do 3 (apply in_or_app; right). simpl. auto.
      * intros _ g. destruct (perform_eda_Completed _ Eeda) as [-> _].
        apply in_or_app; right.
        destruct g; [apply in_or_app; left; simpl; auto 6 ..|].
        apply in_or_app; right. apply in_or_app; right. simpl. auto.
    + split; [|split].
      * split; [discriminate|]. intros [H|H]; [contradiction|]. effect_cases.
      * intros fc. split; [intros H | intros [H _]]; effect_cases.
      * intros H. effect_cases.
    + split; [|split].
      * split; [discriminate|]. intros [H|H]; [contradiction|]. effect_cases.
      * intros fc. split; [intros H | intros [H _]]; effect_cases.
      * intros H. effect_cases.
    + split; [|split].
      * split; [discriminate|]. intros [H|H]; [contradiction|]. effect_cases.
      * intros fc. split; [intros H | intros [H _]]; effect_cases.
      * intros H. effect_cases.
Qed.

(** X14. Forecasting inside the pipeline. When a run of the main block
    reaches forecast_transactions, the exploratory analysis has run to its
    end on the same frame, so the frame has at least 24 rows and every
    volume is finite and positive: the evaluation model is fitted on at
    least twelve rows and the twelve rows of the holdout are forecast. The
    too-short failure of the evaluation cannot occur in a run of the
    pipeline. *)
Theorem forecasting_in_the_pipeline_has_two_years (csv : read_csv_result) :
  In (Printed ForecastBanner) (effects (main csv)) ->
  exists df,
    loads csv df
    /\ effects (perform_eda (featured df)) = eda_effects
    /\ (24 <= length df)%nat
    /\ Forall (fun e => Np.isfinite (TransactionVolume_Cr e) = true
                        /\ (0 <? TransactionVolume_Cr e)%float = true) df
    /\ (12 <= length (train (featured df)))%nat
    /\ exists forecast,
         test_forecast (featured df) = Return forecast
         /\ length forecast = 12%nat.
Proof.
  destruct (main_cases csv) as [[-> E]|[(e & E & Hnone)|(df & L)]].
  - rewrite E. simpl. intros [H|[]]; discriminate.
  - rewrite E. simpl. intros [].
  - rewrite (main_loaded L).
    destruct (ending_of (perform_eda (featured df))) as [[]|x] eqn:Eeda.
    2:{ cbn [effects]. intros H. effect_cases. }
    intros _. exists df.
    destruct (perform_eda_Completed _ Eeda) as (Eeff & Hlen & Hfin & Hpos).
    rewrite featured_length in Hlen.
    assert (Hvol : Forall (fun e => Np.isfinite (TransactionVolume_Cr e) = true
                                    /\ (0 <? TransactionVolume_Cr e)%float = true) df).
    { destruct (@features_columns df (featured df)) as [Ho _]; [reflexivity|].
      rewrite <- Ho. apply Forall_map.
      rewrite forallb_forall in Hfin. rewrite Forall_forall in *.
      intros r Hr. simpl. auto. }
    assert (Htrain : (12 <= length (train (featured df)))%nat)
      by (rewrite train_length, featured_length; lia).
    destruct (train_test_finite _ Hfin) as [Hf _].
    destruct (fit_returns cfg (train (featured df))) as [m Hm];
      [lia | exact Hf |].
    assert (Htl : length (map fst (test (featured df))) = 12%nat)
      by (rewrite length_map, test_length, featured_length; lia).
    destruct (map fst (test (featured df))) as [|d ds] eqn:Edates;
      [discriminate|].
    assert (Et : test_forecast (featured df)
                 = Return (map (forecast_row m)
                               (Ord.sort_values (fun d => d) (d :: ds)))).
    { unfold test_forecast, evaluation_model. rewrite Hm. simpl bind.
      rewrite Edates. apply predict_nonempty. }
    repeat split; try assumption.
    eexists. split; [exact Et|]. now apply test_forecast_Return in Et.
Qed.

End MainProperties.

Lemma forecasting_in_the_pipeline_has_two_years_witness :
  In (Printed ForecastBanner)
     (effects (main (parser := refusing) (core := last_value)
                    (charts := every_chart_drawn) (Table two_years)))
  /\ exists df,
       loads (parser := refusing) (Table two_years) df
       /\ length df = 24%nat
       /\ (12 <= length (train (featured df)))%nat.
Proof.
  assert (H : In (Printed ForecastBanner)
                 (effects (main (parser := refusing) (core := last_value)
                                (charts := every_chart_drawn) (Table two_years)))).
  { vm_compute. do 10 right. left. reflexivity. }
  split; [exact H|].
  destruct (@forecasting_in_the_pipeline_has_two_years
              refusing last_value observed_only every_chart_drawn
              (Table two_years) H)
    as (df & Hl & _ & _ & _ & Ht & _).
  exists df. split; [exact Hl|]. split; [|exact Ht].
  assert (Hv : forallb valid_row two_years = true) by reflexivity.
  rewrite (loads_valid_inv Hv Hl). reflexivity.
Defined.
